(** * joule-profiler: the example workload [examples/programs/workload.py]

    A shallow embedding of the prime-search workload and of its command-line
    entry point, with the properties its specification states.

    - [Binary64]: the double-precision arithmetic behind [int(num ** 0.5)].
    - [Py]: the state-and-exception monad the program runs in (standard
      output, standard error, raised exceptions), [range], [for] loops,
      [int(str)].
    - [Argparse]: the command-line parser as [main] configures it.
    - [Workload]: [find_primes] and [main], statement by statement.
    - [Reference]: the sieve the specification compares the search with.
    - [Notions], the [...Facts] modules: what the proofs need.
    - The properties, one theorem per claim of the specification. *)

From Stdlib Require Import ZArith Lia List Bool String Ascii Znumtheory Sorted.
From Stdlib Require Import DecimalString DecimalPos.
Import ListNotations.
Local Open Scope Z_scope.

(* ================================================================== *)
(** ** IEEE 754 binary64, as far as [int(num ** 0.5)] needs it *)
(* ================================================================== *)

Module Binary64.

(** A finite, non-negative double: the value [mant * 2^exp] with
    [mant < 2^53].  Only non-negative values occur in the workload, since
    [range(2, limit)] yields [num >= 2]. *)
Record float : Type := mkfloat { mant : Z; exp : Z }.

(** [finite]: a positive value that fits the 53-bit significand. *)
Definition finite (x : float) : Prop := 0 < mant x < 2 ^ 53.

(** [normal]: the significand has exactly 53 bits. *)
Definition normal (f : float) : Prop := 2 ^ 52 <= mant f < 2 ^ 53.

(** Python's [int.bit_length] on a non-negative integer. *)
Definition bit_length (n : Z) : Z := if n =? 0 then 0 else Z.log2 n + 1.

(** [float(n)] for [n >= 0], as CPython's [PyLong_AsDouble] computes it:
    exact when [n] has at most 53 bits, otherwise the top 53 bits rounded
    half-to-even; [None] stands for [OverflowError: int too large to
    convert to float], raised when the rounded value reaches [2^1024]. *)
Definition float_of_int (n : Z) : option float :=
  let k := bit_length n in
  if k <=? 53 then Some (mkfloat n 0)
  else
    let sh := k - 53 in
    let q := Z.shiftr n sh in
    let r := Z.land n (Z.ones sh) in
    let half := 2 ^ (sh - 1) in
    let up := (half <? r) || ((r =? half) && Z.odd q) in
    let q' := if up then q + 1 else q in
    let f := if q' =? 2 ^ 53 then mkfloat (2 ^ 52) (sh + 1) else mkfloat q' sh in
    if 971 <? exp f then None else Some f.

(** The least integer whose conversion overflows: halfway between the
    largest double and [2^1024]. *)
Definition overflow_threshold : Z := 2 ^ 1024 - 2 ^ 970.

(** [int(f)]: truncation; for a non-negative value, a shift. *)
Definition int_of_float (f : float) : Z := Z.shiftl (mant f) (exp f).

(** Order on dyadic numbers [m1 * 2^e1 < m2 * 2^e2], decided on integers
    after scaling both sides to the smaller exponent. *)
Definition dlt (m1 e1 m2 e2 : Z) : Prop :=
  let k := Z.min e1 e2 in m1 * 2 ^ (e1 - k) < m2 * 2 ^ (e2 - k).

(** The doubles next to a normal [f]: [below f] is its predecessor (half
    the spacing away when [f] is a power of two), [above f] its successor;
    both as (significand, exponent). *)
Definition below (f : float) : Z * Z :=
  if mant f =? 2 ^ 52 then (2 ^ 53 - 1, exp f - 1) else (mant f - 1, exp f).

Definition above (f : float) : Z * Z := (mant f + 1, exp f).

(** [f] is a faithful rounding of the square root of [x]: [f] is a normal
    double and the exact root lies strictly between the neighbours of [f]
    (error below one unit in the last place; exact when the root is itself
    a double). Stated on squares, so that it stays in the integers. *)
Definition sqrt_faithful (x f : float) : Prop :=
  normal f /\
  dlt (fst (below f) * fst (below f)) (2 * snd (below f)) (mant x) (exp x) /\
  dlt (mant x) (exp x) (fst (above f) * fst (above f)) (2 * snd (above f)).

(** The C library's [pow(x, 0.5)], which CPython's [float.__pow__] calls.
    The C standard does not fix its rounding and implementations are not
    correctly rounded; what they achieve, and document as an error below
    one unit in the last place, is a faithful rounding. That is all that
    is assumed here, for the doubles an integer [num >= 1] converts to. *)
Class Libm : Type := {
  pow_half : float -> float;
  pow_half_faithful :
    forall x, finite x -> 0 <= exp x -> sqrt_faithful x (pow_half x)
}.

(** One such library: the square root rounded towards zero. *)
Definition sqrt_down (x : float) : float :=
  let sh := 104 - 2 * ((Z.log2 (mant x) + exp x) / 2) in
  mkfloat (Z.sqrt (mant x * 2 ^ (exp x + sh))) (- (sh / 2)).

End Binary64.

(* ================================================================== *)
(** ** The Python fragment the workload is written in *)
(* ================================================================== *)

Module Py.

(** Exceptions the program can raise. *)
Inductive exn : Type :=
| OverflowError
| TypeError
| ZeroDivisionError
| SystemExit (code : Z).

Inductive result (A : Type) : Type :=
| Ok (a : A)
| Raise (e : exn).
Arguments Ok {A} a.
Arguments Raise {A} e.

(** A line written to standard output by one call of [print] (which ends
    it with a newline), with whether [flush=True] was passed. *)
Record out_line : Type := mkline { text : string; flushed : bool }.

(** What the program can change outside its local variables. *)
Record world : Type := mkworld { stdout : list out_line; stderr : list string }.

Definition empty_world : world := mkworld [] [].

(** Computations: they read and change the world, and return or raise. *)
Definition M (A : Type) : Type := world -> result A * world.

Definition ret {A : Type} (a : A) : M A := fun w => (Ok a, w).

Definition raise {A : Type} (e : exn) : M A := fun w => (Raise e, w).

Definition bind {A B : Type} (c : M A) (k : A -> M B) : M B :=
  fun w =>
    match c w with
    | (Ok a, w') => k a w'
    | (Raise e, w') => (Raise e, w')
    end.

Notation "x <- c1 ;; c2" := (bind c1 (fun x => c2))
  (at level 61, c1 at next level, right associativity).
Notation "' pat <- c1 ;; c2" := (bind c1 (fun x => match x with pat => c2 end))
  (at level 61, pat pattern, c1 at next level, right associativity).
Notation "c1 ;; c2" := (bind c1 (fun _ => c2))
  (at level 61, right associativity).

(** [print(s)] and [print(s, flush=True)]. *)
Definition print (s : string) (flush : bool) : M unit :=
  fun w => (Ok tt, mkworld (stdout w ++ [mkline s flush]) (stderr w)).

(** A line on standard error. *)
Definition eprint (s : string) : M unit :=
  fun w => (Ok tt, mkworld (stdout w) (stderr w ++ [s])).

(** [a % b] on integers: the sign of the divisor, [ZeroDivisionError] on 0. *)
Definition py_mod (a b : Z) : M Z :=
  if b =? 0 then raise ZeroDivisionError else ret (a mod b).

(** [str(z)] and the [{z}] of an f-string. *)
Definition py_str (z : Z) : string := NilZero.string_of_int (Z.to_int z).

(** [range(start, stop)]: empty when [stop <= start]. *)
Fixpoint range_from (start : Z) (n : nat) : list Z :=
  match n with
  | O => []
  | S n' => start :: range_from (start + 1) n'
  end.

Definition py_range (start stop : Z) : list Z :=
  range_from start (Z.to_nat (stop - start)).

(** How an iteration of a loop body ends. *)
Inductive ctl (V : Type) : Type :=
| Continue (s : V)
| Break (s : V).
Arguments Continue {V} s.
Arguments Break {V} s.

(** [for x in xs: body], threading the variables [s] the body assigns.
    Besides the final variables it returns the number of iterations that
    were started, which the program itself never sees. *)
Fixpoint for_in {V : Type} (xs : list Z) (body : Z -> V -> M (ctl V)) (s : V)
  : M (nat * V) :=
  match xs with
  | [] => ret (O, s)
  | x :: xs' =>
      c <- body x s ;;
      match c with
      | Break s' => ret (1%nat, s')
      | Continue s' => ' (k, s'') <- for_in xs' body s' ;; ret (S k, s'')
      end
  end.

(** *** [int(str)] in base ten, on ASCII strings *)

Definition is_space (c : ascii) : bool :=
  let n := Z.of_nat (nat_of_ascii c) in
  ((9 <=? n) && (n <=? 13)) || ((28 <=? n) && (n <=? 32)).

Definition digit_of (c : ascii) : option Z :=
  let n := Z.of_nat (nat_of_ascii c) in
  if (48 <=? n) && (n <=? 57) then Some (n - 48) else None.

(** Digits, with single underscores allowed between two digits. *)
Fixpoint parse_digits (cs : list ascii) (acc : Z) (after_digit : bool) : option Z :=
  match cs with
  | [] => if after_digit then Some acc else None
  | c :: cs' =>
      match digit_of c with
      | Some d => parse_digits cs' (10 * acc + d) true
      | None =>
          if (Ascii.eqb c "_"%char) && after_digit then parse_digits cs' acc false else None
      end
  end.

Fixpoint lstrip (cs : list ascii) : list ascii :=
  match cs with
  | c :: cs' => if is_space c then lstrip cs' else cs
  | [] => []
  end.

Definition strip (cs : list ascii) : list ascii := rev (lstrip (rev (lstrip cs))).

(** [int(s)]: surrounding whitespace, an optional sign, digits. [None]
    stands for [ValueError]. *)
Definition py_int (s : string) : option Z :=
  match strip (list_ascii_of_string s) with
  | "-"%char :: ds => option_map Z.opp (parse_digits ds 0 false)
  | "+"%char :: ds => parse_digits ds 0 false
  | ds => parse_digits ds 0 false
  end.

End Py.

(* ================================================================== *)
(** ** [argparse], as far as [main] configures it *)
(* ================================================================== *)

Module Argparse.
Import Py.

(** [ArgumentParser(description=...)] with the one option
    [add_argument('-n', '--limit', type=int, default=50000, help=...)] and
    the [-h]/[--help] option every parser gets.

    The model reads the option spellings of the command-line surface:
    [-n LIMIT], [--limit LIMIT], [-h], [--help]. The abbreviated and
    attached spellings argparse also takes ([--lim 5], [--limit=5], [-n5])
    are not modelled and are reported like any other stray word. *)

Definition prog : string := "workload.py"%string.

Definition usage : string := "usage: workload.py [-h] [-n LIMIT]"%string.

Definition help_text : list string :=
  [ usage; "";
    "Prime number calculation"; "";
    "options:";
    "  -h, --help            show this help message and exit";
    "  -n LIMIT, --limit LIMIT";
    "                        Find primes up to this number (default: 50000)" ]%string.

(** [parser.error(msg)]: usage and message on standard error, status 2. *)
Definition parser_error {A : Type} (msg : string) : M A :=
  eprint usage ;;
  eprint (prog ++ ": error: " ++ msg)%string ;;
  raise (SystemExit 2).

Fixpoint print_lines (ls : list string) : M unit :=
  match ls with
  | [] => ret tt
  | l :: ls' => print l false ;; print_lines ls'
  end.

(** The help action: the help text on standard output, status 0. *)
Definition print_help {A : Type} : M A :=
  print_lines help_text ;; raise (SystemExit 0).

Definition is_digit (c : ascii) : bool :=
  match digit_of c with Some _ => true | None => false end.

Definition all_digits (cs : list ascii) : bool :=
  match cs with
  | [] => false
  | _ => forallb is_digit cs
  end.

Fixpoint drop_digits (cs : list ascii) : list ascii :=
  match cs with
  | c :: cs' => if is_digit c then drop_digits cs' else cs
  | [] => []
  end.

(** What follows the dash of a negative number: digits, or digits with a
    decimal point and at least one digit after it. *)
Definition number_like (cs : list ascii) : bool :=
  all_digits cs ||
  match drop_digits cs with
  | "."%char :: ds => all_digits ds
  | _ => false
  end.

Definition has_space (cs : list ascii) : bool :=
  existsb (fun c => Ascii.eqb c " "%char) cs.

Definition is_prefix_of (cs full : list ascii) : bool :=
  (Nat.leb (List.length cs) (List.length full)) &&
  (if list_eq_dec ascii_dec cs (firstn (List.length cs) full) then true else false).

Fixpoint until_equals (cs : list ascii) : list ascii :=
  match cs with
  | [] => []
  | c :: cs' => if Ascii.eqb c "="%char then [] else c :: until_equals cs'
  end.

(** Whether a word after [-n]/[--limit] is taken as its value rather than
    as another option: it does not start with a dash, or is a lone dash,
    or is a negative number, or contains a space and is no spelling of an
    option of this parser. *)
Definition arg_like (v : string) : bool :=
  match list_ascii_of_string v with
  | "-"%char :: c :: rest =>
      if Ascii.eqb c "n"%char || Ascii.eqb c "h"%char then false
      else if Ascii.eqb c "-"%char &&
              (is_prefix_of (until_equals rest) (list_ascii_of_string "limit"%string)
               || is_prefix_of (until_equals rest) (list_ascii_of_string "help"%string))
      then false
      else number_like (c :: rest) || has_space (c :: rest)
  | _ => true
  end.

(** The words of the command line, left to right; [limit] is the value
    the option holds so far (a later occurrence replaces an earlier one). *)
Fixpoint parse_opts (args : list string) (limit : Z) : M Z :=
  match args with
  | [] => ret limit
  | a :: rest =>
      if String.eqb a "-h"%string || String.eqb a "--help"%string then print_help
      else if String.eqb a "-n"%string || String.eqb a "--limit"%string then
        match rest with
        | v :: rest' =>
            if arg_like v then
              match py_int v with
              | Some n => parse_opts rest' n
              | None =>
                  parser_error ("argument -n/--limit: invalid int value: '" ++ v ++ "'")%string
              end
            else parser_error "argument -n/--limit: expected one argument"%string
        | [] => parser_error "argument -n/--limit: expected one argument"%string
        end
      else parser_error ("unrecognized arguments: " ++ a)%string
  end.

(** [parser.parse_args()], giving [args.limit]. *)
Definition parse_args (argv : list string) : M Z := parse_opts argv 50000.

End Argparse.

(* ================================================================== *)
(** ** The workload: [find_primes] and [main] *)
(* ================================================================== *)

Module Workload.
Import Binary64 Py Argparse.

Section WithLibm.
Context {L : Libm}.

(** [num ** 0.5] on a float: [pow(x, 0.5)], with [pow(0, 0.5) = 0]. *)
Definition float_pow_half (x : float) : float :=
  if mant x =? 0 then x else pow_half x.

(** [int(num ** 0.5)]. A negative [num] would give a complex number, which
    [int] rejects; [range(2, limit)] never yields one. *)
Definition isqrt_float (num : Z) : M Z :=
  if num <? 0 then raise TypeError
  else
    match float_of_int num with
    | None => raise OverflowError
    | Some x => ret (int_of_float (float_pow_half x))
    end.

(** Lines 18-20: the body of the inner loop. *)
Definition inner_body (num i : Z) (is_prime : bool) : M (ctl bool) :=
  r <- py_mod num i ;;
  if r =? 0 then ret (Break false) else ret (Continue is_prime).

(** Lines 16-20: [is_prime = True] and the loop over [range(2, stop)]. *)
Definition inner_loop (num stop : Z) : M (nat * bool) :=
  for_in (py_range 2 stop) (inner_body num) true.

(** Lines 16-22: the body of the outer loop. *)
Definition outer_body (num : Z) (primes : list Z) : M (ctl (list Z)) :=
  stop <- isqrt_float num ;;
  ' (_, is_prime) <- inner_loop num (stop + 1) ;;
  if is_prime : bool then ret (Continue (primes ++ [num])) else ret (Continue primes).

(** Lines 14-22: [primes = []] and the loop over [range(2, limit)]. *)
Definition outer_loop (limit : Z) : M (nat * list Z) :=
  for_in (py_range 2 limit) outer_body [].

Definition find_primes (limit : Z) : M (list Z) :=
  ' (_, primes) <- outer_loop limit ;;
  ret primes.

Definition banner : string := "Starting prime calculation..."%string.
Definition work_start : string := "__WORK_START__"%string.
Definition work_end : string := "__WORK_END__"%string.

Definition summary (count limit : Z) : string :=
  ("Found " ++ py_str count ++ " prime numbers up to " ++ py_str limit)%string.

Definition main (argv : list string) : M unit :=
  limit <- parse_args argv ;;
  print banner false ;;
  print work_start true ;;
  primes <- find_primes limit ;;
  print work_end true ;;
  print (summary (Z.of_nat (List.length primes)) limit) false.

(** The script run as a process: the exit status and what was written.
    An exception other than [SystemExit] ends it with a traceback on
    standard error and status 1. *)
Definition run_script (argv : list string) : Z * world :=
  match main argv empty_world with
  | (Ok _, w) => (0, w)
  | (Raise (SystemExit code), w) => (code, w)
  | (Raise _, w) =>
      (1, mkworld (stdout w) (stderr w ++ ["Traceback (most recent call last):"%string]))
  end.

End WithLibm.

End Workload.

(* ================================================================== *)
(** ** The specification's reference: a sieve *)
(* ================================================================== *)

Module Reference.
Import Py.



End Reference.

(* ================================================================== *)
(** ** Notions the properties and their proofs are stated with *)
(* ================================================================== *)

Module Notions.
Import Binary64 Py Argparse Workload.

(** A computation without effects: it leaves the world as it found it, and
    its outcome does not depend on the world. *)
Definition pure {A : Type} (c : M A) : Prop :=
  exists r : result A, forall w : world, c w = (r, w).

(** Trial division of [num] by the divisors [ds] in order, stopping at the
    first that divides: the number of divisors tried, and whether none
    divides. This is what the inner loop computes. *)
Fixpoint trial (num : Z) (ds : list Z) : nat * bool :=
  match ds with
  | [] => (O, true)
  | d :: ds' =>
      if num mod d =? 0 then (1%nat, false)
      else let (k, b) := trial num ds' in (S k, b)
  end.

(** Trial division up to the exact integer square root. *)
Definition trial_exact (num : Z) : bool :=
  snd (trial num (py_range 2 (Z.sqrt num + 1))).

(** Well-formed occurrences of the option: [-n v] or [--limit v] with [v]
    an integer. *)
Inductive limit_options : list string -> Prop :=
| limit_options_nil : limit_options []
| limit_options_cons (flag v : string) (n : Z) (rest : list string) :
    flag = "-n"%string \/ flag = "--limit"%string ->
    arg_like v = true ->
    py_int v = Some n ->
    limit_options rest ->
    limit_options (flag :: v :: rest).

Section WithLibm.
Context {L : Libm}.

(** The value of [int(num ** 0.5)], when the conversion to a double
    does not overflow. *)
Definition isqrt_opt (num : Z) : option Z :=
  option_map (fun x => int_of_float (float_pow_half x)) (float_of_int num).

(** The same for an exactly represented [num]. *)
Definition isqrt_val (num : Z) : Z := int_of_float (float_pow_half (mkfloat num 0)).

(** Whether the outer loop keeps the candidate [num]. *)
Definition keeps (num : Z) : bool :=
  match isqrt_opt num with
  | Some b => snd (trial num (py_range 2 (b + 1)))
  | None => false
  end.

(** Whether every candidate of [xs] converts to a double. *)
Definition convertible (xs : list Z) : bool :=
  forallb (fun x => match float_of_int x with Some _ => true | None => false end) xs.

End WithLibm.

End Notions.

(* ================================================================== *)
(** ** Further notions *)
(* ================================================================== *)

Module MoreNotions.
Import Py Argparse.


(** The value of a decimal numeral read from the left, above [acc]. *)
Fixpoint uint_val (d : Decimal.uint) (acc : Z) : Z :=
  match d with
  | Decimal.Nil => acc
  | Decimal.D0 l => uint_val l (10 * acc + 0)
  | Decimal.D1 l => uint_val l (10 * acc + 1)
  | Decimal.D2 l => uint_val l (10 * acc + 2)
  | Decimal.D3 l => uint_val l (10 * acc + 3)
  | Decimal.D4 l => uint_val l (10 * acc + 4)
  | Decimal.D5 l => uint_val l (10 * acc + 5)
  | Decimal.D6 l => uint_val l (10 * acc + 6)
  | Decimal.D7 l => uint_val l (10 * acc + 7)
  | Decimal.D8 l => uint_val l (10 * acc + 8)
  | Decimal.D9 l => uint_val l (10 * acc + 9)
  end.

Definition uint_chars (d : Decimal.uint) : list ascii :=
  list_ascii_of_string (NilEmpty.string_of_uint d).

End MoreNotions.

(* ================================================================== *)
(** ** Facts about the binary64 model *)
(* ================================================================== *)

Module Binary64Facts.
Import Binary64.

(** Comparing dyadic numbers at any exponent below both. *)
Lemma dlt_scale (m1 e1 m2 e2 k : Z) :
  k <= e1 -> k <= e2 ->
  (dlt m1 e1 m2 e2 <-> m1 * 2 ^ (e1 - k) < m2 * 2 ^ (e2 - k)).
Proof.
  intros H1 H2. unfold dlt. cbv zeta.
  set (k0 := Z.min e1 e2).
  assert (Hk : k <= k0) by (unfold k0; lia).
  assert (H10 : k0 <= e1) by (unfold k0; lia).
  assert (H20 : k0 <= e2) by (unfold k0; lia).
  replace (e1 - k) with ((e1 - k0) + (k0 - k)) by lia.
  replace (e2 - k) with ((e2 - k0) + (k0 - k)) by lia.
  rewrite !Z.pow_add_r by lia.
  assert (Hp : 0 < 2 ^ (k0 - k)) by (apply Z.pow_pos_nonneg; lia).
  rewrite !Z.mul_assoc.
  split; intro H.
  - apply Z.mul_lt_mono_pos_r; assumption.
  - apply Z.mul_lt_mono_pos_r in H; assumption.
Qed.

Lemma pow2_pos (k : Z) : 0 <= k -> 0 < 2 ^ k.
Proof. intros; apply Z.pow_pos_nonneg; lia. Qed.

Lemma pow2_double (k : Z) : 0 <= k -> 2 ^ (2 * k) = 2 ^ k * 2 ^ k.
Proof. intros. replace (2 * k) with (k + k) by lia. apply Z.pow_add_r; lia. Qed.

Lemma square_lt (a b : Z) : 0 <= b -> a * a < b * b -> a < b.
Proof. intros. nia. Qed.

(** What a faithful square root of an exactly represented integer
    [n < 2^53] looks like, in integers: the result has a negative exponent
    [-j], and with [P = 2^j] its neighbours bracket [n * P^2]. *)
Lemma faithful_small (n : Z) (f : float) :
  0 < n < 2 ^ 53 ->
  sqrt_faithful (mkfloat n 0) f ->
  exp f < 0 /\
  n * (2 ^ (- exp f) * 2 ^ (- exp f)) < (mant f + 1) * (mant f + 1) /\
  (if mant f =? 2 ^ 52
   then (2 ^ 53 - 1) * (2 ^ 53 - 1) < 4 * n * (2 ^ (- exp f) * 2 ^ (- exp f))
   else (mant f - 1) * (mant f - 1) < n * (2 ^ (- exp f) * 2 ^ (- exp f))).
Proof.
  destruct f as [m e]. unfold sqrt_faithful, normal, below, above.
  cbn [mant exp]. intros Hn (Hm & Hb & Ha). cbn [fst snd] in Ha.
  assert (He : e < 0).
  { destruct (Z.ltb_spec e 0) as [|He]; [assumption|exfalso].
    destruct (m =? 2 ^ 52) eqn:Hbd; cbn [fst snd] in Hb.
    - apply (dlt_scale _ _ _ _ (-2)) in Hb; [|lia|lia].
      replace (0 - -2) with 2 in Hb by lia.
      assert (Hp := pow2_pos (2 * (e - 1) - -2) ltac:(lia)).
      change (2 ^ 2) with 4 in Hb.
      set (X := 2 ^ (2 * (e - 1) - -2)) in *.
      assert (HX : (2 ^ 53 - 1) * (2 ^ 53 - 1) * 1 <= (2 ^ 53 - 1) * (2 ^ 53 - 1) * X)
        by (apply Z.mul_le_mono_nonneg_l; lia).
      lia.
    - apply Z.eqb_neq in Hbd.
      apply (dlt_scale _ _ _ _ 0) in Hb; [|lia|lia].
      replace (0 - 0) with 0 in Hb by lia.
      assert (Hp := pow2_pos (2 * e - 0) ltac:(lia)).
      change (2 ^ 0) with 1 in Hb.
      set (X := 2 ^ (2 * e - 0)) in *.
      assert (HX : (m - 1) * (m - 1) * 1 <= (m - 1) * (m - 1) * X)
        by (apply Z.mul_le_mono_nonneg_l; nia).
      nia. }
  split; [assumption|].
  assert (HP : 2 ^ (0 - 2 * e) = 2 ^ (- e) * 2 ^ (- e)).
  { replace (0 - 2 * e) with (2 * (- e)) by lia. apply pow2_double. lia. }
  split.
  - apply (dlt_scale _ _ _ _ (2 * e)) in Ha; [|lia|lia].
    replace (2 * e - 2 * e) with 0 in Ha by lia.
    rewrite HP in Ha. change (2 ^ 0) with 1 in Ha. lia.
  - destruct (m =? 2 ^ 52) eqn:Hbd; cbn [fst snd] in Hb.
    + apply (dlt_scale _ _ _ _ (2 * e - 2)) in Hb; [|lia|lia].
      replace (2 * (e - 1) - (2 * e - 2)) with 0 in Hb by lia.
      replace (0 - (2 * e - 2)) with ((0 - 2 * e) + 2) in Hb by lia.
      rewrite Z.pow_add_r in Hb by lia.
      rewrite HP in Hb. change (2 ^ 0) with 1 in Hb. change (2 ^ 2) with 4 in Hb.
      lia.
    + apply (dlt_scale _ _ _ _ (2 * e)) in Hb; [|lia|lia].
      replace (2 * e - 2 * e) with 0 in Hb by lia.
      rewrite HP in Hb. change (2 ^ 0) with 1 in Hb. lia.
Qed.

Lemma sqrt_bracket (n : Z) :
  0 <= n -> 0 <= Z.sqrt n /\ Z.sqrt n * Z.sqrt n <= n < (Z.sqrt n + 1) * (Z.sqrt n + 1).
Proof.
  intros Hn. split; [apply Z.sqrt_nonneg|].
  generalize (Z.sqrt_spec n Hn). cbv zeta. unfold Z.succ. lia.
Qed.

(** The significand of a faithful root of [n < 2^53], scaled back by
    [P = 2^j], lies between [floor(sqrt n)] and its successor. *)
Lemma mant_bracket (n : Z) (f : float) :
  0 < n < 2 ^ 53 ->
  sqrt_faithful (mkfloat n 0) f ->
  2 ^ (- exp f) * Z.sqrt n <= mant f <= 2 ^ (- exp f) * (Z.sqrt n + 1).
Proof.
  intros Hn Hf.
  destruct (faithful_small n f Hn Hf) as (He & Ha & Hb).
  destruct Hf as (Hm & _). unfold normal in Hm.
  destruct (sqrt_bracket n ltac:(lia)) as (Hs0 & Hs).
  set (P := 2 ^ (- exp f)) in *. set (s := Z.sqrt n) in *. set (m := mant f) in *.
  assert (HP : 0 < P) by (apply pow2_pos; lia).
  split.
  - assert (H : P * s < m + 1) by (apply square_lt; nia). lia.
  - destruct (m =? 2 ^ 52) eqn:Hbd.
    + apply Z.eqb_eq in Hbd.
      assert (H : 2 ^ 53 - 1 < 2 * (P * (s + 1))) by (apply square_lt; nia). lia.
    + assert (H : m - 1 < P * (s + 1)) by (apply square_lt; nia). lia.
Qed.

(** The truncated faithful root of [n < 2^53] is [floor(sqrt n)] or one more. *)
Lemma isqrt_bounds (n : Z) (f : float) :
  0 < n < 2 ^ 53 ->
  sqrt_faithful (mkfloat n 0) f ->
  Z.sqrt n <= int_of_float f <= Z.sqrt n + 1.
Proof.
  intros Hn Hf.
  destruct (mant_bracket n f Hn Hf) as (Hlo & Hhi).
  destruct (faithful_small n f Hn Hf) as (He & _).
  unfold int_of_float. rewrite Z.shiftl_div_pow2 by lia.
  assert (HP : 0 < 2 ^ (- exp f)) by (apply pow2_pos; lia).
  split.
  - apply Z.div_le_lower_bound; assumption.
  - apply Z.div_le_upper_bound; assumption.
Qed.

(** Below [2^52] the truncated faithful root is exactly [floor(sqrt n)]. *)
Lemma isqrt_exact (n : Z) (f : float) :
  0 < n < 2 ^ 52 ->
  sqrt_faithful (mkfloat n 0) f ->
  int_of_float f = Z.sqrt n.
Proof.
  intros Hn Hf.
  assert (Hn' : 0 < n < 2 ^ 53) by lia.
  destruct (mant_bracket n f Hn' Hf) as (_ & Hup).
  destruct (isqrt_bounds n f Hn' Hf) as (Hlo & _).
  destruct (faithful_small n f Hn' Hf) as (He & Ha & Hb).
  destruct Hf as (Hm & _). unfold normal in Hm.
  destruct (sqrt_bracket n ltac:(lia)) as (Hs0 & Hs).
  assert (Hs26 : Z.sqrt n < 2 ^ 26).
  { apply Z.sqrt_lt_square; lia. }
  unfold int_of_float in *. rewrite Z.shiftl_div_pow2 in * by lia.
  set (j := - exp f) in *.
  assert (Hj : 0 < j) by (unfold j; lia).
  set (P := 2 ^ j) in *. set (s := Z.sqrt n) in *. set (m := mant f) in *.
  assert (HP : 0 < P) by (apply pow2_pos; lia).
  assert (Hlt : m / P < s + 1); [|lia].
  apply Z.div_lt_upper_bound; [assumption|].
  destruct (Z.ltb_spec m (P * (s + 1))) as [|Hge]; [assumption|exfalso].
  assert (Hsq : n * (P * P) <= (P * (s + 1)) * (P * (s + 1)) - P * P).
  { assert (n <= (s + 1) * (s + 1) - 1) by lia.
    assert (n * (P * P) <= ((s + 1) * (s + 1) - 1) * (P * P))
      by (apply Z.mul_le_mono_nonneg_r; nia).
    lia. }
  assert (Hmeq : P * (s + 1) = m) by lia.
  rewrite Hmeq in Hsq.
  destruct (m =? 2 ^ 52) eqn:Hbd.
  - apply Z.eqb_eq in Hbd. rewrite Hbd in *.
    assert (HP26 : P < 2 ^ 26) by (apply square_lt; lia).
    assert (P * (s + 1) <= P * 2 ^ 26) by (apply Z.mul_le_mono_nonneg_l; lia).
    assert (P * 2 ^ 26 < 2 ^ 26 * 2 ^ 26) by (apply Z.mul_lt_mono_pos_r; lia).
    lia.
  - apply Z.eqb_neq in Hbd.
    assert (HP27 : P < 2 ^ 27) by (apply square_lt; lia).
    assert (HP26 : 2 ^ 26 <= P).
    { destruct (Z.leb_spec (2 ^ 26) P) as [|Hlt]; [assumption|exfalso].
      assert (P * (s + 1) <= (2 ^ 26 - 1) * (s + 1))
        by (apply Z.mul_le_mono_nonneg_r; lia).
      lia. }
    assert (j = 26).
    { unfold P in HP27, HP26.
      apply Z.pow_lt_mono_r_iff in HP27; [|lia|lia].
      apply Z.pow_le_mono_r_iff in HP26; [|lia|lia]. lia. }
    subst j. replace P with (2 ^ 26) in * by (unfold P; congruence).
    lia.
Qed.

(** [sqrt_down] is a faithful square root: a C library as assumed exists. *)
Lemma sqrt_down_faithful (x : float) :
  finite x -> 0 <= exp x -> sqrt_faithful x (sqrt_down x).
Proof.
  destruct x as [mx ex]. unfold finite, sqrt_down. cbn [mant exp].
  intros Hmx Hex.
  set (q := (Z.log2 mx + ex) / 2).
  assert (Hlog := Z.log2_spec mx ltac:(lia)). unfold Z.succ in Hlog.
  assert (Hl0 := Z.log2_nonneg mx).
  assert (Hl52 : Z.log2 mx < 53) by (apply Z.log2_lt_pow2; lia).
  assert (Hq : 2 * q <= Z.log2 mx + ex <= 2 * q + 1).
  { unfold q. generalize (Z.div_mod (Z.log2 mx + ex) 2 ltac:(lia))
      (Z.mod_pos_bound (Z.log2 mx + ex) 2 ltac:(lia)). lia. }
  set (sh := 104 - 2 * q).
  assert (Hsh2 : sh / 2 = 52 - q).
  { unfold sh. replace (104 - 2 * q) with ((52 - q) * 2) by lia.
    apply Z.div_mul. lia. }
  rewrite Hsh2.
  set (N := mx * 2 ^ (ex + sh)).
  assert (Hes : 0 <= ex + sh) by (unfold sh; lia).
  assert (HN : 2 ^ 104 <= N < 2 ^ 106).
  { unfold N. split.
    - apply Z.le_trans with (2 ^ Z.log2 mx * 2 ^ (ex + sh)).
      + rewrite <- Z.pow_add_r by lia. apply Z.pow_le_mono_r; unfold sh; lia.
      + apply Z.mul_le_mono_nonneg_r; [apply Z.lt_le_incl, pow2_pos|]; lia.
    - apply Z.lt_le_trans with (2 ^ (Z.log2 mx + 1) * 2 ^ (ex + sh)).
      + apply Z.mul_lt_mono_pos_r; [apply pow2_pos|]; lia.
      + rewrite <- Z.pow_add_r by lia. apply Z.pow_le_mono_r; unfold sh; lia. }
  destruct (sqrt_bracket N ltac:(lia)) as (Hr0 & Hr).
  set (r := Z.sqrt N) in *.
  assert (Hnorm : 2 ^ 52 <= r < 2 ^ 53).
  { split.
    - unfold r. apply Z.sqrt_le_square; lia.
    - unfold r. apply Z.sqrt_lt_square; lia. }
  unfold sqrt_faithful, normal, below, above. cbn [mant exp].
  split; [assumption|]. split.
  - destruct (r =? 2 ^ 52) eqn:Hbd; cbn [fst snd].
    + apply (dlt_scale _ _ _ _ (2 * (- (52 - q) - 1))); [lia|unfold sh in Hes; lia|].
      replace (2 * (- (52 - q) - 1) - 2 * (- (52 - q) - 1)) with 0 by lia.
      replace (ex - 2 * (- (52 - q) - 1)) with ((ex + sh) + 2) by (unfold sh; lia).
      rewrite Z.pow_add_r by lia. fold N.
      change (2 ^ 0) with 1. change (2 ^ 2) with 4.
      rewrite Z.mul_assoc. fold N. lia.
    + apply (dlt_scale _ _ _ _ (2 * - (52 - q))); [lia|unfold sh in Hes; lia|].
      replace (2 * - (52 - q) - 2 * - (52 - q)) with 0 by lia.
      replace (ex - 2 * - (52 - q)) with (ex + sh) by (unfold sh; lia).
      fold N. change (2 ^ 0) with 1. nia.
  - cbn [fst snd].
    apply (dlt_scale _ _ _ _ (2 * - (52 - q))); [unfold sh in Hes; lia|lia|].
    replace (2 * - (52 - q) - 2 * - (52 - q)) with 0 by lia.
    replace (ex - 2 * - (52 - q)) with (ex + sh) by (unfold sh; lia).
    fold N. change (2 ^ 0) with 1. lia.
Qed.

Definition libm_down : Libm :=
  {| pow_half := sqrt_down; pow_half_faithful := sqrt_down_faithful |}.

(** Integers below [2^53] convert exactly. *)
Lemma float_of_int_small (n : Z) :
  0 <= n < 2 ^ 53 -> float_of_int n = Some (mkfloat n 0).
Proof.
  intros Hn. unfold float_of_int, bit_length.
  destruct (n =? 0) eqn:H0; [reflexivity|].
  apply Z.eqb_neq in H0.
  assert (Z.log2 n < 53) by (apply Z.log2_lt_pow2; lia).
  destruct (Z.leb_spec (Z.log2 n + 1) 53); [reflexivity|lia].
Qed.

(** An exact case: every faithful square root of [2^54] is [2^27]. *)
Lemma sqrt_faithful_pow54 (f : float) :
  sqrt_faithful (mkfloat (2 ^ 52) 2) f -> int_of_float f = 2 ^ 27.
Proof.
  destruct f as [m e]. unfold sqrt_faithful, normal, below, above.
  cbn [mant exp]. intros (Hm & Hb & Ha). cbn [fst snd] in Ha.
  destruct (Z.leb_spec 2 e) as [He|He].
  - exfalso.
    destruct (m =? 2 ^ 52) eqn:Hbd; cbn [fst snd] in Hb.
    + apply (dlt_scale _ _ _ _ 2) in Hb; [|lia|lia].
      replace (2 - 2) with 0 in Hb by lia. change (2 ^ 0) with 1 in Hb.
      assert (Hp := pow2_pos (2 * (e - 1) - 2) ltac:(lia)).
      set (X := 2 ^ (2 * (e - 1) - 2)) in *.
      assert (HX : (2 ^ 53 - 1) * (2 ^ 53 - 1) * 1 <= (2 ^ 53 - 1) * (2 ^ 53 - 1) * X)
        by (apply Z.mul_le_mono_nonneg_l; lia).
      lia.
    + apply (dlt_scale _ _ _ _ 2) in Hb; [|lia|lia].
      replace (2 - 2) with 0 in Hb by lia. change (2 ^ 0) with 1 in Hb.
      assert (Hp := pow2_pos (2 * e - 2) ltac:(lia)).
      set (X := 2 ^ (2 * e - 2)) in *.
      assert (HX : (m - 1) * (m - 1) * 1 <= (m - 1) * (m - 1) * X)
        by (apply Z.mul_le_mono_nonneg_l; nia).
      nia.
  - set (j := 1 - e).
    assert (Hj : 0 <= j) by (unfold j; lia).
    assert (HQ := pow2_pos j Hj).
    assert (HQ2 : 2 ^ (2 - 2 * e) = 2 ^ j * 2 ^ j).
    { replace (2 - 2 * e) with (2 * j) by (unfold j; lia). apply pow2_double; lia. }
    apply (dlt_scale _ _ _ _ (2 * e)) in Ha; [|lia|lia].
    replace (2 * e - 2 * e) with 0 in Ha by lia. change (2 ^ 0) with 1 in Ha.
    rewrite HQ2 in Ha.
    set (Q := 2 ^ j) in *.
    assert (Ha' : 2 ^ 26 * Q < m + 1) by (apply square_lt; lia).
    assert (Hj27 : j < 27).
    { apply (Z.pow_lt_mono_r_iff 2); [lia|lia|]. fold Q. lia. }
    destruct (m =? 2 ^ 52) eqn:Hbd; cbn [fst snd] in Hb.
    + apply Z.eqb_eq in Hbd.
      apply (dlt_scale _ _ _ _ (2 * e - 2)) in Hb; [|lia|lia].
      replace (2 * (e - 1) - (2 * e - 2)) with 0 in Hb by lia.
      replace (2 - (2 * e - 2)) with ((2 - 2 * e) + 2) in Hb by lia.
      rewrite Z.pow_add_r, HQ2 in Hb by lia.
      change (2 ^ 0) with 1 in Hb. change (2 ^ 2) with 4 in Hb.
      assert (Hb' : 2 ^ 53 - 1 < 2 ^ 27 * Q) by (apply square_lt; lia).
      assert (Hj26 : 26 <= j).
      { apply (Z.pow_le_mono_r_iff 2); [lia|lia|]. fold Q. lia. }
      assert (e = -25) by (unfold j in *; lia).
      subst e m. reflexivity.
    + apply Z.eqb_neq in Hbd. exfalso.
      apply (dlt_scale _ _ _ _ (2 * e)) in Hb; [|lia|lia].
      replace (2 * e - 2 * e) with 0 in Hb by lia. change (2 ^ 0) with 1 in Hb.
      rewrite HQ2 in Hb. fold Q in Hb.
      assert (Hb' : m - 1 < 2 ^ 26 * Q) by (apply square_lt; lia).
      assert (Hj26 : 26 < j).
      { apply (Z.pow_lt_mono_r_iff 2); [lia|lia|]. fold Q. lia. }
      lia.
Qed.

(** Conversion of integers the workload can meet beyond [2^53]. *)
Lemma float_of_int_pow54m1 :
  float_of_int (2 ^ 54 - 1) = Some (mkfloat (2 ^ 52) 2).
Proof. vm_compute. reflexivity. Qed.

(** The conversion overflows exactly from [overflow_threshold] on. *)
Lemma float_of_int_none_iff (n : Z) :
  0 <= n -> (float_of_int n = None <-> overflow_threshold <= n).
Proof.
  intros Hn. unfold overflow_threshold, float_of_int, bit_length.
  destruct (Z.eqb_spec n 0) as [->|Hn0].
  { cbn. split; [discriminate|lia]. }
  assert (Hlog := Z.log2_spec n ltac:(lia)). unfold Z.succ in Hlog.
  assert (Hl0 := Z.log2_nonneg n).
  set (k := Z.log2 n + 1) in *.
  destruct (Z.leb_spec k 53) as [Hk|Hk].
  { split; [discriminate|]. intros H. exfalso.
    assert (2 ^ k <= 2 ^ 53) by (apply Z.pow_le_mono_r; lia). lia. }
  cbv zeta.
  set (sh := k - 53) in *.
  assert (Hsh : 1 <= sh) by (unfold sh; lia).
  rewrite Z.shiftr_div_pow2, Z.land_ones by lia.
  assert (Hpow : 2 ^ sh = 2 * 2 ^ (sh - 1)).
  { replace sh with (1 + (sh - 1)) at 1 by lia. rewrite Z.pow_add_r by lia. reflexivity. }
  assert (Hhalf := pow2_pos (sh - 1) ltac:(lia)).
  set (half := 2 ^ (sh - 1)) in *.
  assert (Hdm := Z.div_mod n (2 ^ sh) ltac:(lia)).
  assert (Hr := Z.mod_pos_bound n (2 ^ sh) ltac:(lia)).
  set (q := n / 2 ^ sh) in *. set (r := n mod 2 ^ sh) in *.
  assert (Hk1 : 2 ^ (k - 1) = 2 ^ 52 * 2 ^ sh).
  { rewrite <- Z.pow_add_r by lia. f_equal. unfold sh. lia. }
  assert (Hk2 : 2 ^ k = 2 ^ 53 * 2 ^ sh).
  { rewrite <- Z.pow_add_r by lia. f_equal. unfold sh. lia. }
  replace (Z.log2 n) with (k - 1) in Hlog by (unfold k; lia).
  replace (k - 1 + 1) with k in Hlog by lia.
  assert (Hq : 2 ^ 52 <= q < 2 ^ 53) by nia.
  set (up := (half <? r) || ((r =? half) && Z.odd q)).
  assert (Hup : up = true -> half <= r).
  { unfold up. intros H. apply orb_true_iff in H. destruct H as [H|H].
    - apply Z.ltb_lt in H. lia.
    - apply andb_true_iff in H. destruct H as [H _]. apply Z.eqb_eq in H. lia. }
  assert (Hup' : half <= r -> q = 2 ^ 53 - 1 -> up = true).
  { unfold up. intros H ->. destruct (Z.ltb_spec half r); [reflexivity|].
    replace r with half by lia. rewrite Z.eqb_refl. reflexivity. }
  assert (Hexp : exp (if (if up then q + 1 else q) =? 2 ^ 53
                      then mkfloat (2 ^ 52) (sh + 1)
                      else mkfloat (if up then q + 1 else q) sh)
                 = if (up && (q =? 2 ^ 53 - 1))%bool then sh + 1 else sh).
  { destruct up; cbn [andb].
    - destruct (Z.eqb_spec (q + 1) (2 ^ 53)), (Z.eqb_spec q (2 ^ 53 - 1)); try lia; reflexivity.
    - destruct (Z.eqb_spec q (2 ^ 53)); [lia|reflexivity]. }
  set (f := if (if up then q + 1 else q) =? 2 ^ 53 then _ else _) in *.
  rewrite Hexp.
  destruct (Z.ltb_spec 971 (if (up && (q =? 2 ^ 53 - 1))%bool then sh + 1 else sh)) as [Hov|Hov].
  - split; [intros _|reflexivity].
    destruct (Z.leb_spec 972 sh) as [Hbig|Hsmall].
    + assert (2 ^ 1024 <= 2 ^ (k - 1)) by (apply Z.pow_le_mono_r; unfold sh in *; lia). lia.
    + destruct (up && (q =? 2 ^ 53 - 1))%bool eqn:Hc; [|lia].
      apply andb_true_iff in Hc. destruct Hc as [Hu Hq1].
      apply Z.eqb_eq in Hq1. specialize (Hup Hu).
      assert (sh = 971) by lia.
      assert (Hh : half = 2 ^ 970) by (unfold half; f_equal; lia).
      rewrite Hpow in Hdm. rewrite Hh in *. lia.
  - split; [discriminate|]. intros Hge. exfalso.
    assert (Hk1024 : 1024 <= k).
    { destruct (Z.leb_spec 1024 k); [assumption|exfalso].
      assert (2 ^ k <= 2 ^ 1023) by (apply Z.pow_le_mono_r; lia). lia. }
    assert (sh = 971) by (destruct (up && (q =? 2 ^ 53 - 1))%bool; unfold sh in *; lia).
    assert (Hh : half = 2 ^ 970) by (unfold half; f_equal; lia).
    rewrite Hpow, Hh in *.
    assert (Hq1 : q = 2 ^ 53 - 1) by lia.
    rewrite Hup' in Hov by lia.
    rewrite Hq1, Z.eqb_refl in Hov. cbn [andb] in Hov. lia.
Qed.

End Binary64Facts.

(* ================================================================== *)
(** ** Facts about ranges, loops and computations without effects *)
(* ================================================================== *)

Module PyFacts.
Import Py Notions.

Lemma range_from_length (n : nat) (a : Z) : List.length (range_from a n) = n.
Proof.
  revert a. induction n as [|n IH]; intros a; simpl; [reflexivity|].
  now rewrite IH.
Qed.

Lemma range_from_In (n : nat) (a x : Z) :
  In x (range_from a n) <-> a <= x < a + Z.of_nat n.
Proof.
  revert a. induction n as [|n IH]; intros a; simpl.
  - lia.
  - rewrite IH. lia.
Qed.

Lemma range_from_app (n m : nat) (a : Z) :
  range_from a (n + m) = range_from a n ++ range_from (a + Z.of_nat n) m.
Proof.
  revert a. induction n as [|n IH]; intros a.
  - simpl. now replace (a + 0) with a by lia.
  - cbn [Nat.add range_from app]. rewrite IH.
    now replace (a + 1 + Z.of_nat n) with (a + Z.of_nat (S n)) by lia.
Qed.

Lemma range_from_sorted (n : nat) (a : Z) : StronglySorted Z.lt (range_from a n).
Proof.
  revert a. induction n as [|n IH]; intros a; simpl; constructor.
  - apply IH.
  - apply Forall_forall. intros x Hx. apply range_from_In in Hx. lia.
Qed.

Lemma py_range_In (a b x : Z) : In x (py_range a b) <-> a <= x < b.
Proof. unfold py_range. rewrite range_from_In. lia. Qed.

Lemma py_range_length (a b : Z) : List.length (py_range a b) = Z.to_nat (b - a).
Proof. apply range_from_length. Qed.

Lemma py_range_empty (a b : Z) : b <= a -> py_range a b = [].
Proof.
  intros H. unfold py_range. now replace (Z.to_nat (b - a)) with O by lia.
Qed.

Lemma py_range_app (a b c : Z) :
  a <= b <= c -> py_range a c = py_range a b ++ py_range b c.
Proof.
  intros H. unfold py_range.
  replace (Z.to_nat (c - a)) with (Z.to_nat (b - a) + Z.to_nat (c - b))%nat by lia.
  rewrite range_from_app. now replace (a + Z.of_nat (Z.to_nat (b - a))) with b by lia.
Qed.

Lemma py_range_sorted (a b : Z) : StronglySorted Z.lt (py_range a b).
Proof. apply range_from_sorted. Qed.

Lemma filter_sorted (f : Z -> bool) (l : list Z) :
  StronglySorted Z.lt l -> StronglySorted Z.lt (filter f l).
Proof.
  induction 1 as [|x l Hs IH Hx]; simpl; [constructor|].
  destruct (f x); [|assumption].
  constructor; [assumption|].
  apply Forall_forall. intros y Hy. apply filter_In in Hy.
  rewrite Forall_forall in Hx. now apply Hx.
Qed.

Lemma pure_ret {A : Type} (a : A) : pure (ret a).
Proof. now exists (Ok a). Qed.

Lemma pure_raise {A : Type} (e : exn) : pure (@raise A e).
Proof. now exists (Raise e). Qed.

Lemma pure_bind {A B : Type} (c : M A) (k : A -> M B) :
  pure c -> (forall a, pure (k a)) -> pure (bind c k).
Proof.
  intros [r Hr] Hk. destruct r as [a|e].
  - destruct (Hk a) as [r' Hr']. exists r'. intros w.
    unfold bind. now rewrite Hr, Hr'.
  - exists (Raise e). intros w. unfold bind. now rewrite Hr.
Qed.

Lemma pure_for_in {V : Type} (body : Z -> V -> M (ctl V)) (xs : list Z) :
  (forall x s, pure (body x s)) -> forall s, pure (for_in xs body s).
Proof.
  intros Hb. induction xs as [|x xs IH]; intros s; simpl.
  - apply pure_ret.
  - apply pure_bind; [apply Hb|].
    intros [s'|s'].
    + apply pure_bind; [apply IH|]. intros [k s'']. apply pure_ret.
    + apply pure_ret.
Qed.

Lemma pure_py_mod (a b : Z) : pure (py_mod a b).
Proof. unfold py_mod. destruct (b =? 0); [apply pure_raise|apply pure_ret]. Qed.

End PyFacts.

(* ================================================================== *)
(** ** Facts about the reference sieve *)
(* ================================================================== *)

Module ReferenceFacts.
Import Py PyFacts Reference.

Lemma prime_factor (n : Z) : 2 <= n -> exists q, Z.prime q /\ (q | n).
Proof.
  intros Hn.
  assert (H : forall k, 0 <= k -> forall m, 2 <= m <= k -> exists q, Z.prime q /\ (q | m)).
  { intros k Hk. pattern k. apply natlike_ind; [| |assumption]; clear k Hk.
    - intros m Hm. lia.
    - intros k Hk IH m Hm.
      destruct (prime_dec m) as [Hp|Hp].
      + exists m. split; [now apply prime_alt|apply Z.divide_refl].
      + destruct (not_prime_divide m ltac:(lia) Hp) as (d & Hd & Hdm).
        destruct (IH d ltac:(lia)) as (q & Hq & Hqd).
        exists q. split; [assumption|]. now apply Z.divide_trans with d. }
  apply (H n); lia.
Qed.







End ReferenceFacts.

(* ================================================================== *)
(** ** Facts about the prime search *)
(* ================================================================== *)

Module WorkloadFacts.
Import Binary64 Py Argparse Workload Notions Binary64Facts PyFacts.

Lemma trial_none (num : Z) (ds : list Z) :
  snd (trial num ds) = true <-> (forall d, In d ds -> num mod d <> 0).
Proof.
  induction ds as [|d ds IH]; simpl.
  - split; [intros _ d []|reflexivity].
  - destruct (Z.eqb_spec (num mod d) 0) as [Hd|Hd]; simpl.
    + split; [discriminate|]. intros H. exfalso. apply (H d); [now left|assumption].
    + destruct (trial num ds) as [k b]. simpl in *. rewrite IH. split.
      * intros H x [<-|Hx]; [assumption|now apply H].
      * intros H x Hx. apply H. now right.
Qed.


Lemma trial_count_all (num : Z) (ds : list Z) :
  snd (trial num ds) = true -> fst (trial num ds) = List.length ds.
Proof.
  induction ds as [|d ds IH]; simpl; [reflexivity|].
  destruct (num mod d =? 0); simpl; [discriminate|].
  destruct (trial num ds). simpl in *. intros H. now rewrite IH.
Qed.

(** Trial division up to a bound between the integer square root and the
    candidate itself decides primality. *)
Lemma trial_prime (num b : Z) :
  2 <= num -> Z.sqrt num <= b < num ->
  (snd (trial num (py_range 2 (b + 1))) = true <-> Z.prime num).
Proof.
  intros Hnum Hb. rewrite trial_none.
  destruct (sqrt_bracket num ltac:(lia)) as (Hs0 & Hs).
  set (s := Z.sqrt num) in *.
  split.
  - intros H. split; [lia|].
    intros n Hn [k Hk].
    destruct (Z.leb_spec n s) as [Hle|Hgt].
    + apply (H n); [apply py_range_In; lia|].
      apply Z.mod_divide; [lia|]. now exists k.
    + assert (Hk2 : 2 <= k) by nia.
      assert (Hks : k <= s) by nia.
      apply (H k); [apply py_range_In; lia|].
      apply Z.mod_divide; [lia|]. exists n. lia.
  - intros Hp d Hd Hmod. apply py_range_In in Hd.
    destruct Hp as (_ & Hp).
    apply (Hp d); [lia|]. apply Z.mod_divide; [lia|assumption].
Qed.

(** When trial division over [a, a+1, ...] stops early, it stops at the
    least divisor in the range. *)
Lemma trial_range_first (num : Z) (n : nat) :
  forall a,
    snd (trial num (range_from a n)) = false ->
    let d := a + Z.of_nat (fst (trial num (range_from a n))) - 1 in
    a <= d < a + Z.of_nat n /\ num mod d = 0 /\
    (forall d', a <= d' < d -> num mod d' <> 0).
Proof.
  induction n as [|n IH]; intros a; [discriminate|].
  cbn [range_from trial].
  destruct (Z.eqb_spec (num mod a) 0) as [Ha|Ha].
  - intros _. cbn [fst]. replace (a + Z.of_nat 1 - 1) with a by lia.
    repeat split; [lia|lia|assumption|lia].
  - specialize (IH (a + 1)).
    destruct (trial num (range_from (a + 1) n)) as [k b].
    cbn [fst snd] in *. intros Hb. specialize (IH Hb).
    replace (a + Z.of_nat (S k) - 1) with (a + 1 + Z.of_nat k - 1) by lia.
    destruct IH as (Hd & Hmod & Hleast).
    repeat split; [lia|lia|assumption|].
    intros d' Hd'. destruct (Z.eq_dec d' a) as [->|Hne]; [assumption|].
    apply Hleast. lia.
Qed.

Section WithLibm.
Context {L : Libm}.

Lemma inner_run (num : Z) (ds : list Z) (w : world) :
  (forall d, In d ds -> d <> 0) ->
  for_in ds (inner_body num) true w = (Ok (trial num ds), w).
Proof.
  induction ds as [|d ds IH]; intros Hds; simpl; [reflexivity|].
  unfold bind at 1. unfold inner_body at 1. unfold bind at 1, py_mod.
  destruct (Z.eqb_spec d 0) as [Hd|Hd]; [exfalso; apply (Hds d); [now left|assumption]|].
  unfold ret at 1.
  destruct (num mod d =? 0); unfold ret at 1; [reflexivity|].
  unfold bind. rewrite IH by (intros; apply Hds; now right).
  destruct (trial num ds). reflexivity.
Qed.

Lemma inner_loop_run (num stop : Z) (w : world) :
  inner_loop num stop w = (Ok (trial num (py_range 2 stop)), w).
Proof.
  apply inner_run. intros d Hd. apply py_range_In in Hd. lia.
Qed.

Lemma isqrt_opt_small (num : Z) :
  0 <= num < 2 ^ 53 -> isqrt_opt num = Some (isqrt_val num).
Proof. intros H. unfold isqrt_opt. now rewrite float_of_int_small. Qed.

Lemma isqrt_float_run (num : Z) (w : world) :
  0 <= num ->
  isqrt_float num w =
  (match isqrt_opt num with Some b => Ok b | None => Raise OverflowError end, w).
Proof.
  intros H. unfold isqrt_float, isqrt_opt.
  destruct (Z.ltb_spec num 0); [lia|].
  now destruct (float_of_int num).
Qed.

Lemma float_pow_half_faithful (num : Z) :
  0 < num < 2 ^ 53 -> sqrt_faithful (mkfloat num 0) (float_pow_half (mkfloat num 0)).
Proof.
  intros H. unfold float_pow_half. cbn [mant].
  destruct (Z.eqb_spec num 0); [lia|].
  apply pow_half_faithful; unfold finite; cbn [mant exp]; lia.
Qed.

Lemma isqrt_val_bounds (num : Z) :
  0 < num < 2 ^ 53 -> Z.sqrt num <= isqrt_val num <= Z.sqrt num + 1.
Proof. intros H. apply isqrt_bounds; [assumption|now apply float_pow_half_faithful]. Qed.

Lemma isqrt_val_exact (num : Z) :
  0 < num < 2 ^ 52 -> isqrt_val num = Z.sqrt num.
Proof. intros H. apply isqrt_exact; [assumption|apply float_pow_half_faithful; lia]. Qed.

Lemma isqrt_val_below (num : Z) :
  2 <= num < 2 ^ 53 -> Z.sqrt num <= isqrt_val num < num.
Proof.
  intros H.
  destruct (isqrt_val_bounds num ltac:(lia)) as (Hlo & Hhi).
  split; [assumption|].
  destruct (Z.ltb_spec num (2 ^ 52)) as [Hlt|Hge].
  - rewrite isqrt_val_exact by lia. apply Z.sqrt_lt_lin. lia.
  - assert (Z.sqrt num < 2 ^ 27) by (apply Z.sqrt_lt_square; lia). lia.
Qed.

Lemma keeps_prime (num : Z) :
  2 <= num < 2 ^ 53 -> (keeps num = true <-> Z.prime num).
Proof.
  intros H. unfold keeps. rewrite isqrt_opt_small by lia.
  apply trial_prime; [lia|now apply isqrt_val_below].
Qed.

Lemma keeps_exact (num : Z) :
  2 <= num < 2 ^ 52 ->
  keeps num = snd (trial num (py_range 2 (Z.sqrt num + 1))).
Proof.
  intros H. unfold keeps. rewrite isqrt_opt_small by lia.
  now rewrite isqrt_val_exact by lia.
Qed.

Lemma convertible_small (xs : list Z) :
  (forall x, In x xs -> 0 <= x < 2 ^ 53) -> convertible xs = true.
Proof.
  intros H. apply forallb_forall. intros x Hx.
  now rewrite float_of_int_small by now apply H.
Qed.

(** One iteration of the outer loop: the candidate is appended or not,
    unless its conversion to a double overflows. *)
Lemma outer_body_run (num : Z) (acc : list Z) (w : world) :
  0 <= num ->
  outer_body num acc w =
  (match float_of_int num with
   | Some _ => Ok (Continue (if keeps num then acc ++ [num] else acc))
   | None => Raise OverflowError
   end, w).
Proof.
  intros H. unfold outer_body, bind.
  rewrite isqrt_float_run by assumption. unfold keeps, isqrt_opt.
  destruct (float_of_int num) as [x|]; cbn [option_map]; [|reflexivity].
  rewrite inner_loop_run.
  destruct (trial num (py_range 2 (int_of_float (float_pow_half x) + 1))) as [k b].
  now destruct b.
Qed.

(** The outer loop over any candidates: it filters them, or raises
    [OverflowError] at the first that does not convert. *)
Lemma outer_run (xs : list Z) :
  (forall x, In x xs -> 0 <= x) ->
  forall acc w,
    for_in xs outer_body acc w =
    (if convertible xs
     then Ok (List.length xs, acc ++ filter keeps xs)
     else Raise OverflowError, w).
Proof.
  induction xs as [|x xs IH]; intros Hxs acc w.
  - simpl. now rewrite app_nil_r.
  - cbn [for_in]. unfold bind at 1.
    rewrite outer_body_run by (apply Hxs; now left).
    cbn [convertible forallb filter].
    destruct (float_of_int x) as [fx|]; [|reflexivity].
    unfold bind. rewrite IH by (intros; apply Hxs; now right).
    fold (convertible xs). cbn [andb].
    destruct (convertible xs); [|reflexivity].
    unfold ret. destruct (keeps x); [|reflexivity].
    now rewrite <- app_assoc.
Qed.

Lemma outer_loop_run (limit : Z) (w : world) :
  outer_loop limit w =
  (if convertible (py_range 2 limit)
   then Ok (List.length (py_range 2 limit), filter keeps (py_range 2 limit))
   else Raise OverflowError, w).
Proof.
  unfold outer_loop. rewrite outer_run; [reflexivity|].
  intros x Hx. apply py_range_In in Hx. lia.
Qed.

(** The prime search, in one equation. *)
Lemma find_primes_run (limit : Z) (w : world) :
  find_primes limit w =
  (if convertible (py_range 2 limit)
   then Ok (filter keeps (py_range 2 limit))
   else Raise OverflowError, w).
Proof.
  unfold find_primes, bind. rewrite outer_loop_run.
  now destruct (convertible (py_range 2 limit)).
Qed.

Lemma find_primes_small (limit : Z) (w : world) :
  limit <= 2 ^ 53 ->
  find_primes limit w = (Ok (filter keeps (py_range 2 limit)), w).
Proof.
  intros H. rewrite find_primes_run, convertible_small; [reflexivity|].
  intros x Hx. apply py_range_In in Hx. lia.
Qed.

(** The candidates below [limit] all convert exactly when [limit] is at
    most [overflow_threshold]. *)
Lemma convertible_range (limit : Z) :
  convertible (py_range 2 limit) = true <-> limit <= overflow_threshold.
Proof.
  unfold convertible. rewrite forallb_forall. split.
  - intros H. destruct (Z.leb_spec limit overflow_threshold) as [|Hgt]; [assumption|].
    exfalso.
    assert (Hin : In overflow_threshold (py_range 2 limit)).
    { apply py_range_In. unfold overflow_threshold in *. lia. }
    assert (Hnone : float_of_int overflow_threshold = None).
    { apply float_of_int_none_iff; unfold overflow_threshold; lia. }
    generalize (H _ Hin). rewrite Hnone. apply Bool.diff_false_true.
  - intros H x Hx. apply py_range_In in Hx.
    destruct (float_of_int x) eqn:Hf; [reflexivity|].
    apply float_of_int_none_iff in Hf; lia.
Qed.

(** The search returns a list up to [overflow_threshold] and ends in
    [OverflowError] beyond. *)
Lemma find_primes_returns (limit : Z) (w : world) :
  limit <= overflow_threshold ->
  find_primes limit w = (Ok (filter keeps (py_range 2 limit)), w).
Proof.
  intros H. apply convertible_range in H. now rewrite find_primes_run, H.
Qed.

Lemma find_primes_overflow (limit : Z) (w : world) :
  overflow_threshold < limit -> find_primes limit w = (Raise OverflowError, w).
Proof.
  intros H. rewrite find_primes_run.
  destruct (convertible (py_range 2 limit)) eqn:Hc; [|reflexivity].
  apply convertible_range in Hc. lia.
Qed.

(** Raising the limit only appends. *)
Lemma find_primes_prefix (a b : Z) (w : world) (lb : list Z) :
  a <= b ->
  find_primes b w = (Ok lb, w) ->
  exists la ext, find_primes a w = (Ok la, w) /\ lb = la ++ ext.
Proof.
  intros Hab. rewrite !find_primes_run.
  destruct (Z.leb_spec a 2) as [Ha|Ha].
  - rewrite (py_range_empty 2 a) by lia. cbn [convertible forallb filter].
    intros Hb. exists [], lb. now split.
  - rewrite (py_range_app 2 a b) by lia.
    unfold convertible. rewrite forallb_app, filter_app.
    fold (convertible (py_range 2 a)). fold (convertible (py_range a b)).
    destruct (convertible (py_range 2 a)); cbn [andb]; [|discriminate].
    destruct (convertible (py_range a b)); [|discriminate].
    intros Hb. injection Hb as <-.
    now exists (filter keeps (py_range 2 a)), (filter keeps (py_range a b)).
Qed.

(** *** The statements of [find_primes] have no effects *)

Lemma pure_isqrt_float (num : Z) : pure (isqrt_float num).
Proof.
  unfold isqrt_float. destruct (num <? 0); [apply pure_raise|].
  destruct (float_of_int num); [apply pure_ret|apply pure_raise].
Qed.

Lemma pure_inner_body (num i : Z) (is_prime : bool) : pure (inner_body num i is_prime).
Proof.
  unfold inner_body. apply pure_bind; [apply pure_py_mod|].
  intros r. destruct (r =? 0); apply pure_ret.
Qed.

Lemma pure_outer_body (num : Z) (primes : list Z) : pure (outer_body num primes).
Proof.
  unfold outer_body. apply pure_bind; [apply pure_isqrt_float|].
  intros stop. apply pure_bind.
  - unfold inner_loop. apply pure_for_in. intros x s. apply pure_inner_body.
  - intros [k is_prime]. destruct is_prime; apply pure_ret.
Qed.

Lemma pure_find_primes (limit : Z) : pure (find_primes limit).
Proof.
  unfold find_primes. apply pure_bind.
  - unfold outer_loop. apply pure_for_in. intros x s. apply pure_outer_body.
  - intros [k primes]. apply pure_ret.
Qed.

(** *** The command line *)

Lemma parser_error_run {A : Type} (msg : string) (w : world) :
  @parser_error A msg w =
  (Raise (SystemExit 2),
   mkworld (stdout w) ((stderr w ++ [usage]) ++ [(prog ++ ": error: " ++ msg)%string])).
Proof. reflexivity. Qed.

Lemma print_help_exit {A : Type} (w : world) :
  exists w', @print_help A w = (Raise (SystemExit 0), w').
Proof. eexists. reflexivity. Qed.

Lemma is_limit_flag (flag : string) :
  flag = "-n"%string \/ flag = "--limit"%string ->
  String.eqb flag "-h" || String.eqb flag "--help" = false /\
  String.eqb flag "-n" || String.eqb flag "--limit" = true.
Proof. intros [-> | ->]; split; reflexivity. Qed.


(** A command line that parses leaves nothing written. *)
Lemma parse_opts_ok (args : list string) :
  forall limit w n w', parse_opts args limit w = (Ok n, w') -> w' = w.
Proof.
  assert (H : forall k args, (List.length args <= k)%nat ->
            forall limit w n w', parse_opts args limit w = (Ok n, w') -> w' = w).
  { clear args. induction k as [|k IH]; intros args Hk limit w n w'.
    - destruct args; [|simpl in Hk; lia]. simpl. unfold ret. congruence.
    - destruct args as [|a rest]; [simpl; unfold ret; congruence|].
      cbn [parse_opts].
      destruct (String.eqb a "-h" || String.eqb a "--help").
      + destruct (@print_help_exit Z w) as [w'' ->]. discriminate.
      + destruct (String.eqb a "-n" || String.eqb a "--limit").
        * destruct rest as [|v rest']; [rewrite parser_error_run; discriminate|].
          destruct (arg_like v); [|rewrite parser_error_run; discriminate].
          destruct (py_int v); [|rewrite parser_error_run; discriminate].
          apply IH. simpl in Hk. lia.
        * rewrite parser_error_run. discriminate. }
  intros. eapply H; [apply Nat.le_refl|eassumption].
Qed.

(** What [main] does after the command line was parsed. *)
Lemma main_run (argv : list string) (limit : Z) (w : world) :
  parse_args argv w = (Ok limit, w) ->
  main argv w =
  (if convertible (py_range 2 limit)
   then
     (Ok tt,
      mkworld
        ((((stdout w ++ [mkline banner false]) ++ [mkline work_start true])
          ++ [mkline work_end true])
          ++ [mkline (summary (Z.of_nat (List.length (filter keeps (py_range 2 limit))))
                              limit) false])
        (stderr w))
   else
     (Raise OverflowError,
      mkworld ((stdout w ++ [mkline banner false]) ++ [mkline work_start true])
              (stderr w))).
Proof.
  intros Hp. unfold main. unfold bind at 1. rewrite Hp.
  unfold bind at 1. unfold print at 1.
  unfold bind at 1. unfold print at 1. cbn [stdout stderr].
  unfold bind at 1. rewrite find_primes_run.
  destruct (convertible (py_range 2 limit)); [|reflexivity].
  reflexivity.
Qed.

(** A run of [main] that returns has parsed its command line. *)
Lemma main_returns (argv : list string) (w w' : world) :
  main argv w = (Ok tt, w') ->
  exists limit, parse_args argv w = (Ok limit, w) /\
                convertible (py_range 2 limit) = true.
Proof.
  intros Hm.
  destruct (parse_args argv w) as [[limit|e] w1] eqn:Hp.
  - assert (w1 = w) by (eapply parse_opts_ok; exact Hp). subst w1.
    exists limit. split; [reflexivity|].
    rewrite (main_run argv limit w Hp) in Hm.
    destruct (convertible (py_range 2 limit)); [reflexivity|discriminate].
  - unfold main in Hm. unfold bind at 1 in Hm. rewrite Hp in Hm. discriminate.
Qed.

Lemma filter_keeps_exact (limit : Z) :
  limit <= 2 ^ 52 ->
  filter keeps (py_range 2 limit) = filter trial_exact (py_range 2 limit).
Proof.
  intros H. apply filter_ext_in. intros x Hx. apply py_range_In in Hx.
  apply keeps_exact. lia.
Qed.

(** At [2^54 - 1] every faithful [pow] gives [2^27], one more than the
    integer square root. *)
Lemma isqrt_float_pow54m1 (w : world) :
  isqrt_float (2 ^ 54 - 1) w = (Ok (2 ^ 27), w).
Proof.
  unfold isqrt_float.
  destruct (Z.ltb_spec (2 ^ 54 - 1) 0); [lia|].
  rewrite float_of_int_pow54m1. unfold ret. f_equal. f_equal.
  unfold float_pow_half. cbn [mant].
  destruct (Z.eqb_spec (2 ^ 52) 0); [lia|].
  apply sqrt_faithful_pow54.
  apply pow_half_faithful; unfold finite; cbn [mant exp]; lia.
Qed.

(** Everything about one candidate [n < 2^53]: the bound, the inner
    loop, the verdict. *)
Lemma candidate_run (n : Z) (w : world) :
  2 <= n < 2 ^ 53 ->
  exists (k : nat) (is_prime : bool),
    isqrt_float n w = (Ok (isqrt_val n), w) /\
    inner_loop n (isqrt_val n + 1) w = (Ok (k, is_prime), w) /\
    (is_prime = true <-> forall d, 2 <= d <= Z.sqrt n -> n mod d <> 0) /\
    (is_prime = true -> Z.of_nat k = isqrt_val n - 1) /\
    (is_prime = false ->
       2 <= Z.of_nat k + 1 <= Z.sqrt n /\ n mod (Z.of_nat k + 1) = 0 /\
       forall d, 2 <= d < Z.of_nat k + 1 -> n mod d <> 0) /\
    forall primes,
      outer_body n primes w =
      (Ok (Continue (if is_prime then primes ++ [n] else primes)), w).
Proof.
  intros Hn.
  assert (Hs1 : 1 <= Z.sqrt n) by (apply Z.sqrt_le_square; lia).
  assert (Hsn : Z.sqrt n < n) by (apply Z.sqrt_lt_lin; lia).
  destruct (isqrt_val_below n Hn) as (Hlo & Hhi).
  set (b := isqrt_val n) in *.
  destruct (trial n (py_range 2 (b + 1))) as [k flag] eqn:Ht.
  assert (Hprime : flag = true <-> Z.prime n).
  { rewrite <- (trial_prime n b) by lia. now rewrite Ht. }
  assert (Hsmall : (forall d, 2 <= d <= Z.sqrt n -> n mod d <> 0) <-> Z.prime n).
  { rewrite <- (trial_prime n (Z.sqrt n)) by lia. rewrite trial_none.
    split; intros H d Hd.
    - apply py_range_In in Hd. apply H. lia.
    - apply H. apply py_range_In. lia. }
  exists k, flag.
  split; [rewrite isqrt_float_run, isqrt_opt_small by lia; reflexivity|].
  split; [rewrite inner_loop_run; now rewrite Ht|].
  split; [now rewrite Hprime, Hsmall|].
  split.
  { intros ->.
    assert (Hk := trial_count_all n (py_range 2 (b + 1))).
    rewrite Ht in Hk. cbn [fst snd] in Hk. rewrite Hk by reflexivity.
    rewrite py_range_length. lia. }
  split.
  { intros ->.
    assert (Hf := trial_range_first n (Z.to_nat (b + 1 - 2)) 2).
    fold (py_range 2 (b + 1)) in Hf. rewrite Ht in Hf.
    cbn [fst snd] in Hf. specialize (Hf eq_refl). cbv zeta in Hf.
    replace (2 + Z.of_nat k - 1) with (Z.of_nat k + 1) in Hf by lia.
    destruct Hf as (Hd & Hmod & Hleast).
    split; [|split; assumption].
    split; [lia|].
    destruct (Z.leb_spec (Z.of_nat k + 1) (Z.sqrt n)) as [|Hgt]; [assumption|exfalso].
    assert (Hp : Z.prime n).
    { apply Hsmall. intros d Hd'. apply Hleast. lia. }
    apply Hprime in Hp. discriminate. }
  intros primes. rewrite outer_body_run by lia.
  rewrite float_of_int_small by lia.
  unfold keeps. rewrite isqrt_opt_small by lia. fold b. now rewrite Ht.
Qed.

End WithLibm.

End WorkloadFacts.

(* ================================================================== *)
(** ** Further facts: doubles of any size, the command line, decimals *)
(* ================================================================== *)

Module MoreFacts.
Import Binary64 Py Argparse Workload Reference Notions MoreNotions.
Import Binary64Facts PyFacts ReferenceFacts WorkloadFacts.

(** The double an integer converts to is positive, has a non-negative
    exponent and is at most twice the integer. *)
Lemma float_of_int_value (n : Z) (x : float) :
  0 < n -> float_of_int n = Some x ->
  finite x /\ 0 <= exp x /\ n <= 2 * (mant x * 2 ^ exp x) /\
  mant x * 2 ^ exp x <= 2 * n.
Proof.
  intros Hn. unfold float_of_int, bit_length, finite.
  destruct (Z.eqb_spec n 0) as [->|Hn0]; [lia|].
  assert (Hlog := Z.log2_spec n ltac:(lia)). unfold Z.succ in Hlog.
  assert (Hl0 := Z.log2_nonneg n).
  set (k := Z.log2 n + 1) in *.
  destruct (Z.leb_spec k 53) as [Hk|Hk].
  { intros H. injection H as <-. cbn [mant exp].
    assert (2 ^ k <= 2 ^ 53) by (apply Z.pow_le_mono_r; lia).
    change (2 ^ 0) with 1. lia. }
  cbv zeta.
  set (sh := k - 53) in *.
  assert (Hsh : 1 <= sh) by (unfold sh; lia).
  rewrite Z.shiftr_div_pow2 by lia.
  assert (Hp := pow2_pos sh ltac:(lia)).
  assert (Hdm := Z.div_mod n (2 ^ sh) ltac:(lia)).
  assert (Hr := Z.mod_pos_bound n (2 ^ sh) ltac:(lia)).
  set (q := n / 2 ^ sh) in *.
  assert (Hk1 : 2 ^ (k - 1) = 2 ^ 52 * 2 ^ sh).
  { rewrite <- Z.pow_add_r by lia. f_equal. unfold sh. lia. }
  assert (Hk2 : 2 ^ k = 2 ^ 53 * 2 ^ sh).
  { rewrite <- Z.pow_add_r by lia. f_equal. unfold sh. lia. }
  replace (Z.log2 n) with (k - 1) in Hlog by (unfold k; lia).
  replace (k - 1 + 1) with k in Hlog by lia.
  assert (Hq : 2 ^ 52 <= q < 2 ^ 53) by nia.
  set (up := (2 ^ (sh - 1) <? Z.land n (Z.ones sh)) ||
             ((Z.land n (Z.ones sh) =? 2 ^ (sh - 1)) && Z.odd q)).
  assert (Hq' : q <= (if up then q + 1 else q) <= q + 1) by (destruct up; lia).
  set (q' := if up then q + 1 else q) in *.
  assert (Hle : q * 2 ^ sh <= n) by lia.
  destruct (Z.eqb_spec q' (2 ^ 53)) as [Heq|Hne].
  - cbn [exp]. destruct (971 <? sh + 1); [discriminate|].
    intros H. injection H as <-. cbn [mant exp].
    rewrite Z.pow_add_r by lia. change (2 ^ 1) with 2. nia.
  - cbn [exp]. destruct (971 <? sh); [discriminate|].
    intros H. injection H as <-. cbn [mant exp]. nia.
Qed.

(** A faithful root of a double of value at most [2 n], truncated, stays
    below [n] once [n >= 2^53]. *)
Lemma faithful_root_below (n : Z) (x f : float) :
  2 ^ 53 <= n ->
  finite x -> 0 <= exp x -> mant x * 2 ^ exp x <= 2 * n ->
  sqrt_faithful x f ->
  0 <= int_of_float f < n.
Proof.
  intros Hn Hfin Hex Hval (Hm & Hb & _).
  destruct f as [m e]. unfold normal, below, finite in *. cbn [mant exp] in *.
  unfold int_of_float. cbn [mant exp].
  destruct (Z.ltb_spec e 0) as [He|He].
  - rewrite Z.shiftl_div_pow2 by lia.
    assert (HP := pow2_pos (- e) ltac:(lia)).
    split; [apply Z.div_pos; lia|].
    apply Z.le_lt_trans with m; [|lia].
    apply Z.div_le_upper_bound; [assumption|]. nia.
  - rewrite Z.shiftl_mul_pow2 by lia.
    assert (HP := pow2_pos e He).
    set (P := 2 ^ e) in *.
    split; [nia|].
    assert (HX := pow2_pos (exp x) Hex).
    assert (Hsq : (2 ^ 52 - 1) * (2 ^ 52 - 1) * (P * P) < 2 * n).
    { destruct (Z.eqb_spec m (2 ^ 52)) as [Hbd|Hbd]; cbn [fst snd] in Hb.
      - apply (dlt_scale _ _ _ _ (-2)) in Hb; [|lia|lia].
        replace (2 * (e - 1) - -2) with (2 * e) in Hb by lia.
        replace (exp x - -2) with (exp x + 2) in Hb by lia.
        rewrite pow2_double, Z.pow_add_r in Hb by lia.
        fold P in Hb. change (2 ^ 2) with 4 in Hb. nia.
      - apply (dlt_scale _ _ _ _ 0) in Hb; [|lia|lia].
        replace (2 * e - 0) with (2 * e) in Hb by lia.
        replace (exp x - 0) with (exp x) in Hb by lia.
        rewrite pow2_double in Hb by lia. fold P in Hb.
        assert ((2 ^ 52 - 1) * (2 ^ 52 - 1) * (P * P) <= (m - 1) * (m - 1) * (P * P)).
        { apply Z.mul_le_mono_nonneg_r; nia. }
        lia. }
    destruct (Z.ltb_spec (m * P) n) as [|Hge]; [assumption|exfalso].
    assert (H1 : n * n <= (m * P) * (m * P)) by nia.
    assert (H2 : m * P <= 2 ^ 53 * P) by nia.
    assert (H3 : (m * P) * (m * P) <= (2 ^ 53 * P) * (2 ^ 53 * P)) by nia.
    assert (H4 : (2 ^ 53 * P) * (2 ^ 53 * P) = 2 ^ 106 * (P * P)) by ring.
    assert (H5 : 2 ^ 106 * (P * P) <= 8 * ((2 ^ 52 - 1) * (2 ^ 52 - 1) * (P * P))).
    { assert (0 < P * P) by nia. nia. }
    nia.
Qed.

(** A faithful root of a double of value at least [2^52], truncated, is at
    least [2^26]. *)
Lemma faithful_root_large (x f : float) :
  finite x -> 0 <= exp x -> 2 ^ 52 <= mant x * 2 ^ exp x ->
  sqrt_faithful x f ->
  2 ^ 26 <= int_of_float f.
Proof.
  intros Hfin Hex Hval (Hm & _ & Ha).
  destruct f as [m e]. unfold normal, above, finite in *. cbn [mant exp fst snd] in *.
  unfold int_of_float. cbn [mant exp].
  assert (HX := pow2_pos (exp x) Hex).
  destruct (Z.ltb_spec e 0) as [He|He].
  - rewrite Z.shiftl_div_pow2 by lia.
    set (j := - e) in *. assert (Hj : 0 < j) by (unfold j; lia).
    assert (HP := pow2_pos j ltac:(lia)).
    apply (dlt_scale _ _ _ _ (2 * e)) in Ha; [|lia|lia].
    replace (2 * e - 2 * e) with 0 in Ha by lia. change (2 ^ 0) with 1 in Ha.
    replace (exp x - 2 * e) with (exp x + 2 * j) in Ha by (unfold j; lia).
    rewrite Z.pow_add_r, pow2_double in Ha by lia.
    set (P := 2 ^ j) in *.
    assert (H1 : 2 ^ 52 * (P * P) < (m + 1) * (m + 1)) by nia.
    assert (H2 : 2 ^ 26 * P < m + 1) by (apply square_lt; lia).
    apply Z.div_le_lower_bound; [assumption|]. lia.
  - rewrite Z.shiftl_mul_pow2 by lia.
    assert (HP := pow2_pos e He). nia.
Qed.

Section WithLibm.
Context {L : Libm}.

(** The inner loop's bound is below the candidate, whatever its size. *)
Lemma isqrt_opt_below (n b : Z) :
  2 <= n -> isqrt_opt n = Some b -> 0 <= b < n.
Proof.
  intros Hn. destruct (Z.ltb_spec n (2 ^ 53)) as [Hlt|Hge].
  - rewrite isqrt_opt_small by lia. intros H. injection H as <-.
    destruct (isqrt_val_below n ltac:(lia)) as (Hlo & Hhi).
    generalize (Z.sqrt_nonneg n). lia.
  - unfold isqrt_opt. destruct (float_of_int n) as [x|] eqn:Hx; [|discriminate].
    cbn [option_map]. intros H. injection H as <-.
    destruct (float_of_int_value n x ltac:(lia) Hx) as (Hfin & Hex & _ & Hval).
    unfold float_pow_half. unfold finite in Hfin.
    destruct (Z.eqb_spec (mant x) 0); [lia|].
    apply (faithful_root_below n x); try assumption.
    now apply pow_half_faithful.
Qed.

(** A prime candidate that converts is kept. *)
Lemma keeps_of_prime (n : Z) :
  Z.prime n -> float_of_int n <> None -> keeps n = true.
Proof.
  intros Hp Hconv. unfold keeps.
  destruct (isqrt_opt n) as [b|] eqn:Hb.
  - assert (Hn : 2 <= n) by now apply Z.prime_ge_2.
    destruct (isqrt_opt_below n b Hn Hb) as (Hb0 & Hbn).
    apply trial_none. intros d Hd Hmod. apply py_range_In in Hd.
    destruct Hp as (_ & Hp). apply (Hp d); [lia|].
    apply Z.mod_divide; [lia|assumption].
  - unfold isqrt_opt in Hb. destruct (float_of_int n); [discriminate|congruence].
Qed.

(** What a returned list is. *)
Lemma find_primes_result (limit : Z) (w w' : world) (l : list Z) :
  find_primes limit w = (Ok l, w') ->
  convertible (py_range 2 limit) = true /\ l = filter keeps (py_range 2 limit).
Proof.
  rewrite find_primes_run.
  destruct (convertible (py_range 2 limit)); [|discriminate].
  intros H. injection H as <- _. now split.
Qed.

Lemma isqrt_opt_large (n b : Z) :
  2 ^ 53 <= n -> isqrt_opt n = Some b -> 2 ^ 26 <= b.
Proof.
  intros Hn. unfold isqrt_opt.
  destruct (float_of_int n) as [x|] eqn:Hx; [|discriminate].
  cbn [option_map]. intros H. injection H as <-.
  destruct (float_of_int_value n x ltac:(lia) Hx) as (Hfin & Hex & Hlo & _).
  unfold float_pow_half. unfold finite in Hfin.
  destruct (Z.eqb_spec (mant x) 0); [lia|].
  apply (faithful_root_large x); try assumption; [lia|].
  now apply pow_half_faithful.
Qed.

(** Up to [2^53] the kept candidates are the reference sieve's. *)
Lemma filter_keeps_primes (limit : Z) :
  limit <= 2 ^ 53 ->
  StronglySorted Z.lt (filter keeps (py_range 2 limit)) /\
  (forall p, In p (filter keeps (py_range 2 limit)) <-> Z.prime p /\ p < limit).
Proof.
  intros Hl. split; [apply filter_sorted, py_range_sorted|].
  intros p. rewrite filter_In, py_range_In. split.
  - intros (Hp & Hk). split; [|lia]. apply keeps_prime; [lia|assumption].
  - intros (Hp & Hlt). assert (2 <= p) by now apply Z.prime_ge_2.
    split; [lia|]. apply keeps_prime; [lia|assumption].
Qed.

End WithLibm.

(** *** The command line and the process *)





(** A well-formed command line parses, to the value of its last word. *)
Lemma parse_opts_well_formed (args : list string) :
  limit_options args ->
  forall limit w, exists n, parse_opts args limit w = (Ok n, w).
Proof.
  induction 1 as [|flag v n rest Hflag Hv Hn Hrest IH]; intros limit w.
  - now exists limit.
  - destruct (is_limit_flag flag Hflag) as (Hh & Hl).
    cbn [parse_opts]. rewrite Hh, Hl, Hv, Hn. apply IH.
Qed.

(** *** Decimal numerals *)

Lemma uint_val_acc (d : Decimal.uint) :
  forall acc : positive, Z.pos (Pos.of_uint_acc d acc) = uint_val d (Z.pos acc).
Proof.
  induction d; intros acc; cbn [Pos.of_uint_acc uint_val];
    [reflexivity|rewrite IHd; f_equal; lia..].
Qed.

Lemma uint_val_of_uint (d : Decimal.uint) : Z.of_N (Pos.of_uint d) = uint_val d 0.
Proof.
  induction d; cbn [Pos.of_uint uint_val]; try reflexivity; try assumption;
    cbn [Z.of_N]; rewrite uint_val_acc; reflexivity.
Qed.

Lemma parse_digits_uint (d : Decimal.uint) :
  forall acc b,
    d <> Decimal.Nil \/ b = true ->
    parse_digits (uint_chars d) acc b = Some (uint_val d acc).
Proof.
  unfold uint_chars.
  induction d; intros acc b Hb;
    [destruct Hb as [Hb| ->]; [congruence|reflexivity]
    |cbn -[Z.mul Z.add]; apply IHd; now right..].
Qed.

Lemma uint_chars_digits (d : Decimal.uint) : forallb is_digit (uint_chars d) = true.
Proof. unfold uint_chars. induction d; [reflexivity|cbn; assumption..]. Qed.

Lemma to_uint_not_nil (p : positive) : Pos.to_uint p <> Decimal.Nil.
Proof.
  intros H. generalize (DecimalPos.Unsigned.of_to p). rewrite H. discriminate.
Qed.

Lemma digit_not_space (c : ascii) : is_digit c = true -> is_space c = false.
Proof.
  unfold is_digit, digit_of, is_space.
  set (n := Z.of_nat (nat_of_ascii c)).
  destruct (Z.leb_spec 48 n), (Z.leb_spec n 57); cbn [andb]; try discriminate.
  intros _.
  destruct (Z.leb_spec 9 n), (Z.leb_spec n 13), (Z.leb_spec 28 n), (Z.leb_spec n 32);
    cbn [andb orb]; try reflexivity; lia.
Qed.

Lemma lstrip_id (cs : list ascii) :
  (forall c, In c cs -> is_space c = false) -> lstrip cs = cs.
Proof.
  destruct cs as [|c cs]; [reflexivity|]. intros H. cbn [lstrip].
  now rewrite (H c) by now left.
Qed.

Lemma strip_id (cs : list ascii) :
  (forall c, In c cs -> is_space c = false) -> strip cs = cs.
Proof.
  intros H. unfold strip. rewrite (lstrip_id cs H).
  rewrite lstrip_id; [apply rev_involutive|].
  intros c Hc. apply H. now apply in_rev.
Qed.

Lemma uint_chars_no_space (d : Decimal.uint) (c : ascii) :
  In c (uint_chars d) -> is_space c = false.
Proof.
  intros Hc. apply digit_not_space.
  generalize (uint_chars_digits d). rewrite forallb_forall. intros H. now apply H.
Qed.

Lemma uint_val_to_uint (p : positive) : uint_val (Pos.to_uint p) 0 = Z.pos p.
Proof.
  rewrite <- uint_val_of_uint, DecimalPos.Unsigned.of_to. reflexivity.
Qed.

Lemma py_str_pos (p : positive) :
  list_ascii_of_string (py_str (Z.pos p)) = uint_chars (Pos.to_uint p).
Proof.
  unfold py_str, uint_chars. cbn [Z.to_int NilZero.string_of_int].
  generalize (to_uint_not_nil p). destruct (Pos.to_uint p); [congruence|reflexivity..].
Qed.

Lemma py_str_neg (p : positive) :
  list_ascii_of_string (py_str (Z.neg p)) = "-"%char :: uint_chars (Pos.to_uint p).
Proof.
  unfold py_str, uint_chars. cbn [Z.to_int NilZero.string_of_int list_ascii_of_string].
  f_equal.
  generalize (to_uint_not_nil p). destruct (Pos.to_uint p); [congruence|reflexivity..].
Qed.

(** [int(str(z)) = z]. *)
Lemma py_int_py_str (z : Z) : py_int (py_str z) = Some z.
Proof.
  destruct z as [|p|p].
  - reflexivity.
  - unfold py_int. rewrite py_str_pos.
    rewrite strip_id by apply uint_chars_no_space.
    assert (H : parse_digits (uint_chars (Pos.to_uint p)) 0 false = Some (Z.pos p)).
    { rewrite parse_digits_uint by (left; apply to_uint_not_nil).
      now rewrite uint_val_to_uint. }
    revert H. generalize (to_uint_not_nil p).
    destruct (Pos.to_uint p); [congruence|intros _ H; exact H..].
  - unfold py_int. rewrite py_str_neg.
    rewrite strip_id.
    + rewrite parse_digits_uint by (left; apply to_uint_not_nil).
      now rewrite uint_val_to_uint.
    + intros c [<-|Hc]; [reflexivity|now apply uint_chars_no_space in Hc].
Qed.

(** [str(z)] is taken as the value of the option, negative numbers included. *)
Lemma arg_like_py_str (z : Z) : arg_like (py_str z) = true.
Proof.
  destruct z as [|p|p].
  - reflexivity.
  - unfold arg_like. rewrite py_str_pos.
    generalize (to_uint_not_nil p).
    destruct (Pos.to_uint p); [congruence|reflexivity..].
  - unfold arg_like. rewrite py_str_neg.
    generalize (to_uint_not_nil p) (uint_chars_digits (Pos.to_uint p)).
    destruct (Pos.to_uint p) as [|l|l|l|l|l|l|l|l|l|l]; [congruence|..];
      intros _ H; unfold uint_chars in *;
      cbn [NilEmpty.string_of_uint list_ascii_of_string] in *;
      cbn [Ascii.eqb Bool.eqb orb andb];
      unfold number_like, all_digits; rewrite H; reflexivity.
Qed.

End MoreFacts.

(* ================================================================== *)
(** ** The properties of the specification *)
(* ================================================================== *)

Import Binary64 Py Argparse Workload Reference Notions.
Import Binary64Facts PyFacts ReferenceFacts WorkloadFacts.




(** C2 (as amended). For every candidate [n] with [2 <= n < 2^53] the
    inner loop's bound [int(n ** 0.5)] is [floor(sqrt n)] or one more,
    stays below [n], and is exactly [floor(sqrt n)] when [n < 2^52]. The
    loop tries the divisors [2, 3, ...] in order, all of them up to the
    bound when none divides [n], and up to the least divisor otherwise;
    and [n] is kept as a prime exactly when no [d] in
    [2 .. floor(sqrt n)] divides it. *)
Theorem C2_trial_division_below_2p53 (L : Libm) (n : Z) (w : world) :
  2 <= n < 2 ^ 53 ->
  exists (bound : Z) (k : nat) (is_prime : bool),
    isqrt_float n w = (Ok bound, w) /\
    Z.sqrt n <= bound <= Z.sqrt n + 1 /\
    bound < n /\
    (n < 2 ^ 52 -> bound = Z.sqrt n) /\
    inner_loop n (bound + 1) w = (Ok (k, is_prime), w) /\
    (is_prime = true <-> forall d, 2 <= d <= Z.sqrt n -> n mod d <> 0) /\
    (is_prime = true -> Z.of_nat k = bound - 1) /\
    (is_prime = false ->
       2 <= Z.of_nat k + 1 <= Z.sqrt n /\ n mod (Z.of_nat k + 1) = 0 /\
       forall d, 2 <= d < Z.of_nat k + 1 -> n mod d <> 0) /\
    forall primes,
      outer_body n primes w =
      (Ok (Continue (if is_prime then primes ++ [n] else primes)), w).
Proof.
  intros Hn.
  destruct (candidate_run n w Hn) as (k & b & H1 & H2 & H3 & H4 & H5 & H6).
  exists (isqrt_val n), k, b.
  split; [assumption|].
  split; [apply isqrt_val_bounds; lia|].
  split; [apply isqrt_val_below; lia|].
  split; [intros Hlt; apply isqrt_val_exact; lia|].
  repeat (split; [assumption|]). assumption.
Qed.

(** The theorem of C2 at the candidate [91 = 7 * 13]. *)
Lemma C2_witness_n_91 :
  exists (bound : Z) (k : nat) (is_prime : bool),
    @isqrt_float libm_down 91 empty_world = (Ok bound, empty_world) /\
    Z.sqrt 91 <= bound <= Z.sqrt 91 + 1 /\
    bound < 91 /\
    (91 < 2 ^ 52 -> bound = Z.sqrt 91) /\
    inner_loop 91 (bound + 1) empty_world = (Ok (k, is_prime), empty_world) /\
    (is_prime = true <-> forall d, 2 <= d <= Z.sqrt 91 -> 91 mod d <> 0) /\
    (is_prime = true -> Z.of_nat k = bound - 1) /\
    (is_prime = false ->
       2 <= Z.of_nat k + 1 <= Z.sqrt 91 /\ 91 mod (Z.of_nat k + 1) = 0 /\
       forall d, 2 <= d < Z.of_nat k + 1 -> 91 mod d <> 0) /\
    forall primes,
      @outer_body libm_down 91 primes empty_world =
      (Ok (Continue (if is_prime then primes ++ [91] else primes)), empty_world).
Proof. apply (C2_trial_division_below_2p53 libm_down 91 empty_world). lia. Defined.

(** C2 as stated, for every candidate, fails: at [n = 2^54 - 1] the
    conversion to a double rounds [n] up to [2^54], whose square root is
    exactly [2^27], so [int(n ** 0.5)] is [134217728] with every C library,
    while [floor(sqrt n)] is [134217727]. *)
Lemma C2_counterexample_pow54_minus_1 :
  ~ exists L : Libm,
      @isqrt_float L (2 ^ 54 - 1) empty_world =
      (Ok (Z.sqrt (2 ^ 54 - 1)), empty_world).
Proof.
  intros (L & H). rewrite isqrt_float_pow54m1 in H.
  assert (Hs : Z.sqrt (2 ^ 54 - 1) = 2 ^ 27 - 1) by (vm_compute; reflexivity).
  rewrite Hs in H. injection H as H. lia.
Qed.

(** C3. In every run of [main] that returns, standard output holds the
    start marker and then the end marker as two adjacent lines, each
    written with [flush=True], and neither marker text occurs on any
    other line: each marker exactly once, in this order, nothing between
    them. *)
Theorem C3_markers_once_in_order (L : Libm) (argv : list string) (w' : world) :
  main argv empty_world = (Ok tt, w') ->
  exists pre post : list out_line,
    stdout w' =
      pre ++ [mkline "__WORK_START__" true; mkline "__WORK_END__" true] ++ post /\
    (forall l, In l (pre ++ post) ->
               text l <> "__WORK_START__"%string /\ text l <> "__WORK_END__"%string).
Proof.
  intros Hm.
  destruct (main_returns argv empty_world w' Hm) as (limit & Hp & Hc).
  rewrite (main_run argv limit empty_world Hp), Hc in Hm.
  injection Hm as <-. cbn [stdout empty_world app].
  exists [mkline banner false].
  eexists [mkline _ false]. split; [reflexivity|].
  intros l [<-|[<-|[]]]; cbn [text]; split; discriminate.
Qed.

(** The theorem of C3 on the command line [-n 10]. *)
Lemma C3_witness_limit_10 :
  exists pre post : list out_line,
    stdout (snd (@main libm_down ["-n"; "10"]%string empty_world)) =
      pre ++ [mkline "__WORK_START__" true; mkline "__WORK_END__" true] ++ post /\
    (forall l, In l (pre ++ post) ->
               text l <> "__WORK_START__"%string /\ text l <> "__WORK_END__"%string).
Proof.
  apply (C3_markers_once_in_order libm_down ["-n"; "10"]%string).
  vm_compute. reflexivity.
Defined.



(** C5. [find_primes 10] returns exactly [[2; 3; 5; 7]], and
    [find_primes 50000] returns a list of 5133 numbers. *)
Theorem C5_find_primes_10_and_50000 (L : Libm) (w : world) :
  find_primes 10 w = (Ok [2; 3; 5; 7], w) /\
  exists l : list Z,
    find_primes 50000 w = (Ok l, w) /\ Z.of_nat (List.length l) = 5133.
Proof.
  split.
  - rewrite find_primes_small, filter_keeps_exact by lia.
    vm_compute. reflexivity.
  - exists (filter trial_exact (py_range 2 50000)). split.
    + rewrite find_primes_small, filter_keeps_exact by lia. reflexivity.
    + vm_compute. reflexivity.
Qed.

(** C6. For every limit at most 2, zero and the negative integers
    included, [find_primes] returns the empty list and raises nothing. *)
Theorem C6_find_primes_empty (L : Libm) (limit : Z) (w : world) :
  limit <= 2 -> find_primes limit w = (Ok [], w).
Proof.
  intros H. rewrite find_primes_run, py_range_empty by lia. reflexivity.
Qed.

(** The theorem of C6 at [limit = -7]. *)
Lemma C6_witness_limit_minus_7 :
  @find_primes libm_down (-7) empty_world = (Ok [], empty_world).
Proof. apply (C6_find_primes_empty libm_down (-7) empty_world). lia. Defined.

(** C7. In every run of [main] that returns: the command line was parsed
    to a limit, which is 50000 when no word was given and the integer
    value of [v] when the command line is [-n v] or [--limit v]; the prime
    search on that limit returned a list [primes]; and standard output
    holds, in this order, the banner, the start marker, the end marker
    and the line [Found <count> prime numbers up to <limit>] with
    [count = len(primes)], nothing being written to standard error. *)
Theorem C7_main_output (L : Libm) (argv : list string) (w' : world) :
  main argv empty_world = (Ok tt, w') ->
  exists (limit : Z) (primes : list Z),
    parse_args argv empty_world = (Ok limit, empty_world) /\
    (argv = [] -> limit = 50000) /\
    (forall flag v,
       argv = [flag; v] -> flag = "-n"%string \/ flag = "--limit"%string ->
       py_int v = Some limit) /\
    (forall w, find_primes limit w = (Ok primes, w)) /\
    w' = mkworld
           [ mkline "Starting prime calculation..." false;
             mkline "__WORK_START__" true;
             mkline "__WORK_END__" true;
             mkline ("Found " ++ py_str (Z.of_nat (List.length primes))
                     ++ " prime numbers up to " ++ py_str limit)%string false ]
           [].
Proof.
  intros Hm.
  destruct (main_returns argv empty_world w' Hm) as (limit & Hp & Hc).
  exists limit, (filter keeps (py_range 2 limit)).
  split; [assumption|].
  split.
  { intros ->. unfold parse_args in Hp. cbn in Hp. unfold ret in Hp. congruence. }
  split.
  { intros flag v -> Hflag. unfold parse_args in Hp. cbn [parse_opts] in Hp.
    destruct (is_limit_flag flag Hflag) as (Hh & Hn).
    rewrite Hh, Hn in Hp.
    destruct (arg_like v); [|rewrite parser_error_run in Hp; discriminate].
    destruct (py_int v) as [n|]; [|rewrite parser_error_run in Hp; discriminate].
    unfold ret in Hp. congruence. }
  split.
  { intros w. rewrite find_primes_run, Hc. reflexivity. }
  rewrite (main_run argv limit empty_world Hp), Hc in Hm.
  injection Hm as <-. reflexivity.
Qed.

(** The theorem of C7 on the command line [-n 20]. *)
Lemma C7_witness_limit_20 :
  exists (limit : Z) (primes : list Z),
    parse_args ["-n"; "20"]%string empty_world = (Ok limit, empty_world) /\
    (["-n"; "20"]%string = [] -> limit = 50000) /\
    (forall flag v,
       ["-n"; "20"]%string = [flag; v] ->
       flag = "-n"%string \/ flag = "--limit"%string ->
       py_int v = Some limit) /\
    (forall w, @find_primes libm_down limit w = (Ok primes, w)) /\
    snd (@main libm_down ["-n"; "20"]%string empty_world) =
      mkworld
        [ mkline "Starting prime calculation..." false;
          mkline "__WORK_START__" true;
          mkline "__WORK_END__" true;
          mkline ("Found " ++ py_str (Z.of_nat (List.length primes))
                  ++ " prime numbers up to " ++ py_str limit)%string false ]
        [].
Proof.
  apply (C7_main_output libm_down ["-n"; "20"]%string).
  vm_compute. reflexivity.
Defined.

(** C8. [find_primes] has no effects: for every limit there is one outcome
    (a list, or an exception) that the call produces from every state of
    the world, and it leaves that world, standard output included, as it
    found it. Two calls with the same limit give the same list. *)
Theorem C8_find_primes_pure (L : Libm) (limit : Z) :
  exists r : result (list Z), forall w : world, find_primes limit w = (r, w).
Proof. apply pure_find_primes. Qed.

(** C9 (as amended). For all limits [a <= b]: whenever [find_primes b]
    returns a list, [find_primes a] returns a prefix of it; and
    [find_primes b] does return a list for every [b] up to
    [2^1024 - 2^970], the least integer that does not convert to a
    double. *)
Theorem C9_find_primes_prefix (L : Libm) (a b : Z) (w : world) :
  a <= b ->
  (forall lb, find_primes b w = (Ok lb, w) ->
     exists la ext, find_primes a w = (Ok la, w) /\ lb = la ++ ext) /\
  (b <= 2 ^ 1024 - 2 ^ 970 -> exists lb, find_primes b w = (Ok lb, w)).
Proof.
  intros Hab. split.
  - intros lb Hb. now apply (find_primes_prefix a b w lb).
  - intros Hb. eexists. now apply find_primes_returns.
Qed.

(** The theorem of C9 at [a = 5], [b = 12]. *)
Lemma C9_witness_5_12 :
  (forall lb, @find_primes libm_down 12 empty_world = (Ok lb, empty_world) ->
     exists la ext,
       @find_primes libm_down 5 empty_world = (Ok la, empty_world) /\ lb = la ++ ext) /\
  (12 <= 2 ^ 1024 - 2 ^ 970 ->
   exists lb, @find_primes libm_down 12 empty_world = (Ok lb, empty_world)).
Proof. apply (C9_find_primes_prefix libm_down 5 12 empty_world). lia. Defined.

(** C9 as stated, for all [a <= b], fails: [find_primes 3] returns [[2]]
    but [find_primes (2^1024 + 1)] returns no list to be a prefix of. *)
Lemma C9_counterexample_3_beyond_doubles :
  ~ exists (L : Libm) (la lb ext : list Z),
      @find_primes L 3 empty_world = (Ok la, empty_world) /\
      @find_primes L (2 ^ 1024 + 1) empty_world = (Ok lb, empty_world) /\
      lb = la ++ ext.
Proof.
  intros (L & la & lb & ext & _ & H & _).
  rewrite find_primes_overflow in H by (unfold overflow_threshold; lia).
  discriminate.
Qed.



(* ================================================================== *)
(** ** A remark on the bound [2^53] *)
(* ================================================================== *)

(** Beyond [2^53] the verdict depends on how the C library rounds. With
    the square root rounded towards zero, which is a faithful rounding,
    the square of the prime [94906297], a little above [2^53], is kept as
    a prime: it converts to the double [94906297^2 - 1], whose root
    truncates to [94906296], so that the divisor [94906297] is never
    tried. *)
Remark rounding_down_keeps_a_square :
  Z.prime 94906297 /\
  2 ^ 53 < 94906297 * 94906297 /\
  exists l : list Z,
    @find_primes libm_down (94906297 * 94906297 + 1) empty_world
    = (Ok l, empty_world) /\
    In (94906297 * 94906297) l /\
    ~ Z.prime (94906297 * 94906297).
Proof.
  assert (Hp : Z.prime 94906297).
  { apply (trial_prime 94906297 (Z.sqrt 94906297)).
    - lia.
    - assert (Hs : Z.sqrt 94906297 = 9741) by (vm_compute; reflexivity).
      rewrite Hs. lia.
    - vm_compute. reflexivity. }
  split; [assumption|]. split; [lia|].
  eexists. split; [apply find_primes_returns; unfold overflow_threshold; lia|].
  split; [|apply Z.not_prime_square].
  apply filter_In. split; [apply py_range_In; lia|].
  unfold keeps.
  assert (Hb : @isqrt_opt libm_down (94906297 * 94906297) = Some (94906297 - 1))
    by (vm_compute; reflexivity).
  rewrite Hb. replace (94906297 - 1 + 1) with 94906297 by lia.
  apply trial_none. intros d Hd Hmod. apply py_range_In in Hd.
  apply Z.mod_divide in Hmod; [|lia].
  destruct (prime_factor d ltac:(lia)) as (q & Hq & Hqd).
  assert (Hqpp : (q | 94906297 * 94906297)) by now apply Z.divide_trans with d.
  apply Z.divide_prime_mul in Hqpp; [|assumption].
  assert (Hqp : (q | 94906297)) by tauto.
  apply Z.divide_prime_prime in Hqp; [|assumption|assumption].
  subst q. apply Z.divide_pos_le in Hqd; lia.
Qed.

(* ================================================================== *)
(** ** Further properties of the code *)
(* ================================================================== *)

Import MoreNotions MoreFacts.

(** X1. Whatever the limit, a list that [find_primes] returns is strictly
    increasing, holds no number twice, holds only numbers of
    [range(2, limit)], and is no longer than that range. *)
Theorem X1_find_primes_increasing_within_range
        (L : Libm) (limit : Z) (w w' : world) (l : list Z) :
  find_primes limit w = (Ok l, w') ->
  StronglySorted Z.lt l /\
  NoDup l /\
  (forall p, In p l -> 2 <= p < limit) /\
  Z.of_nat (List.length l) <= Z.max (limit - 2) 0.
Proof.
  intros H. apply find_primes_result in H. destruct H as (_ & ->).
  assert (Hs : StronglySorted Z.lt (filter keeps (py_range 2 limit)))
    by apply filter_sorted, py_range_sorted.
  split; [assumption|]. split; [|split].
  - clear -Hs. induction Hs as [|a l Hs IH Ha]; constructor; [|assumption].
    intros Hin. rewrite Forall_forall in Ha. apply Ha in Hin. lia.
  - intros p Hp. apply filter_In in Hp. destruct Hp as (Hp & _).
    now apply py_range_In in Hp.
  - generalize (filter_length_le keeps (py_range 2 limit)).
    rewrite py_range_length. lia.
Qed.

(** The theorem of X1 at [limit = 30]. *)
Lemma X1_witness_limit_30 :
  StronglySorted Z.lt [2; 3; 5; 7; 11; 13; 17; 19; 23; 29] /\
  NoDup [2; 3; 5; 7; 11; 13; 17; 19; 23; 29] /\
  (forall p, In p [2; 3; 5; 7; 11; 13; 17; 19; 23; 29] -> 2 <= p < 30) /\
  Z.of_nat (List.length [2; 3; 5; 7; 11; 13; 17; 19; 23; 29]) <= Z.max (30 - 2) 0.
Proof.
  apply (X1_find_primes_increasing_within_range libm_down 30 empty_world empty_world).
  vm_compute. reflexivity.
Defined.

(** X2. Whatever the limit, a list that [find_primes] returns omits no
    prime below the limit: beyond [2^53] the rounding of [num ** 0.5] can
    only let composites in, never keep a prime out. *)
Theorem X2_find_primes_omits_no_prime
        (L : Libm) (limit : Z) (w w' : world) (l : list Z) (p : Z) :
  find_primes limit w = (Ok l, w') ->
  Z.prime p -> p < limit -> In p l.
Proof.
  intros H Hp Hlt. apply find_primes_result in H. destruct H as (Hc & ->).
  assert (Hin : In p (py_range 2 limit)).
  { apply py_range_In. apply Z.prime_ge_2 in Hp. lia. }
  apply filter_In. split; [assumption|].
  apply keeps_of_prime; [assumption|].
  unfold convertible in Hc. rewrite forallb_forall in Hc. specialize (Hc p Hin).
  destruct (float_of_int p); [discriminate|discriminate].
Qed.

(** The theorem of X2 at [limit = 30] and the prime 3. *)
Lemma X2_witness_limit_30_prime_3 : In 3 [2; 3; 5; 7; 11; 13; 17; 19; 23; 29].
Proof.
  apply (X2_find_primes_omits_no_prime libm_down 30 empty_world empty_world).
  - vm_compute. reflexivity.
  - exact Z.prime_3.
  - lia.
Defined.

(** X3. For every candidate [num >= 2], when [int(num ** 0.5)] is computed
    it is non-negative and below [num]: the inner loop never tries the
    candidate itself, nor anything larger, as a divisor. *)
Theorem X3_bound_below_candidate (L : Libm) (n b : Z) (w w' : world) :
  2 <= n -> isqrt_float n w = (Ok b, w') -> 0 <= b < n.
Proof.
  intros Hn. rewrite isqrt_float_run by lia.
  destruct (isqrt_opt n) as [b'|] eqn:Hb; [|discriminate].
  intros H. injection H as <- _. now apply isqrt_opt_below.
Qed.

(** The theorem of X3 at [num = 2^60 + 1], where the bound is [2^30]. *)
Lemma X3_witness_2_to_60_plus_1 : 0 <= 2 ^ 30 < 2 ^ 60 + 1.
Proof.
  apply (X3_bound_below_candidate libm_down (2 ^ 60 + 1) (2 ^ 30) empty_world empty_world).
  - lia.
  - vm_compute. reflexivity.
Defined.

(** X4. Whatever the limit, the numbers below [2^53] of a list that
    [find_primes] returns are exactly the primes below the limit: a large
    limit does not spoil the part of the result that doubles represent
    exactly. *)
Theorem X4_find_primes_exact_below_2p53
        (L : Libm) (limit : Z) (w w' : world) (l : list Z) (p : Z) :
  find_primes limit w = (Ok l, w') ->
  p < 2 ^ 53 ->
  (In p l <-> Z.prime p /\ p < limit).
Proof.
  intros H Hp. apply find_primes_result in H. destruct H as (_ & ->).
  rewrite filter_In, py_range_In. split.
  - intros (Hr & Hk). split; [|lia]. apply keeps_prime; [lia|assumption].
  - intros (Hpr & Hlt). assert (2 <= p) by now apply Z.prime_ge_2.
    split; [lia|]. apply keeps_prime; [lia|assumption].
Qed.

(** The theorem of X4 at [limit = 30] and [p = 9]. *)
Lemma X4_witness_limit_30_p_9 : In 9 [2; 3; 5; 7; 11; 13; 17; 19; 23; 29] <-> Z.prime 9 /\ 9 < 30.
Proof.
  apply (X4_find_primes_exact_below_2p53 libm_down 30 empty_world empty_world).
  - vm_compute. reflexivity.
  - lia.
Defined.

(** X5. Whatever the limit, no number [n] of a list that [find_primes]
    returns has a divisor [d < n] with [2 <= d <= 2^26]: a composite that
    slips in beyond [2^53] has no factor up to 67108864. *)
Theorem X5_find_primes_no_small_divisor
        (L : Libm) (limit : Z) (w w' : world) (l : list Z) (n d : Z) :
  find_primes limit w = (Ok l, w') ->
  In n l -> 2 <= d <= 2 ^ 26 -> d < n -> n mod d <> 0.
Proof.
  intros H Hn Hd Hdn. apply find_primes_result in H. destruct H as (_ & ->).
  apply filter_In in Hn. destruct Hn as (Hr & Hk). apply py_range_In in Hr.
  destruct (Z.ltb_spec n (2 ^ 53)) as [Hlt|Hge].
  - apply keeps_prime in Hk; [|lia]. destruct Hk as (_ & Hk).
    intros Hmod. apply (Hk d); [lia|]. apply Z.mod_divide; [lia|assumption].
  - unfold keeps in Hk. destruct (isqrt_opt n) as [b|] eqn:Hb; [|discriminate].
    assert (Hb26 := isqrt_opt_large n b Hge Hb).
    rewrite trial_none in Hk. apply Hk. apply py_range_In. lia.
Qed.

(** The theorem of X5 at [limit = 30], [n = 29], [d = 5]. *)
Lemma X5_witness_29_mod_5 : 29 mod 5 <> 0.
Proof.
  apply (X5_find_primes_no_small_divisor libm_down 30 empty_world empty_world
           [2; 3; 5; 7; 11; 13; 17; 19; 23; 29]).
  - vm_compute. reflexivity.
  - vm_compute. tauto.
  - lia.
  - lia.
Defined.

(** X6. For [2 <= limit < 2^53], raising the limit by one appends [limit]
    to the result when [limit] is prime and changes nothing otherwise. *)
Theorem X6_find_primes_step (L : Libm) (limit : Z) (w : world) :
  2 <= limit < 2 ^ 53 ->
  exists l : list Z,
    find_primes limit w = (Ok l, w) /\
    (Z.prime limit -> find_primes (limit + 1) w = (Ok (l ++ [limit]), w)) /\
    (~ Z.prime limit -> find_primes (limit + 1) w = (Ok l, w)).
Proof.
  intros Hl. exists (filter keeps (py_range 2 limit)).
  split; [apply find_primes_small; lia|].
  assert (Hstep : find_primes (limit + 1) w =
                  (Ok (filter keeps (py_range 2 limit)
                       ++ (if keeps limit then [limit] else [])), w)).
  { rewrite find_primes_small by lia.
    rewrite (py_range_app 2 limit (limit + 1)) by lia.
    rewrite filter_app. do 3 f_equal.
    unfold py_range. replace (Z.to_nat (limit + 1 - limit)) with 1%nat by lia.
    reflexivity. }
  split.
  - intros Hp. apply keeps_prime in Hp; [|lia]. now rewrite Hstep, Hp.
  - intros Hp. rewrite Hstep.
    destruct (keeps limit) eqn:Hk; [|now rewrite app_nil_r].
    exfalso. apply Hp. apply keeps_prime; [lia|assumption].
Qed.

(** The theorem of X6 at [limit = 7]. *)
Lemma X6_witness_limit_7 :
  exists l : list Z,
    @find_primes libm_down 7 empty_world = (Ok l, empty_world) /\
    (Z.prime 7 ->
     @find_primes libm_down (7 + 1) empty_world = (Ok (l ++ [7]), empty_world)) /\
    (~ Z.prime 7 -> @find_primes libm_down (7 + 1) empty_world = (Ok l, empty_world)).
Proof. apply (X6_find_primes_step libm_down 7 empty_world). lia. Defined.




(** X9. When the parsed limit is at most 2 (zero and negative limits are
    accepted), the run completes the whole protocol and reports 0 primes:
    banner, start marker, end marker,
    [Found 0 prime numbers up to <limit>], status 0. *)
Theorem X9_degenerate_limit_run (L : Libm) (argv : list string) (limit : Z) :
  parse_args argv empty_world = (Ok limit, empty_world) ->
  limit <= 2 ->
  run_script argv =
  (0, mkworld [mkline "Starting prime calculation..." false;
               mkline "__WORK_START__" true;
               mkline "__WORK_END__" true;
               mkline ("Found 0 prime numbers up to " ++ py_str limit)%string false]
              []).
Proof.
  intros Hp Hl. unfold run_script. rewrite (main_run argv limit empty_world Hp).
  rewrite py_range_empty by lia. reflexivity.
Qed.

(** The theorem of X9 on the command line [-n -5]. *)
Lemma X9_witness_limit_minus_5 :
  @run_script libm_down ["-n"; "-5"]%string =
  (0, mkworld [mkline "Starting prime calculation..." false;
               mkline "__WORK_START__" true;
               mkline "__WORK_END__" true;
               mkline ("Found 0 prime numbers up to " ++ py_str (-5))%string false]
              []).
Proof.
  apply (X9_degenerate_limit_run libm_down ["-n"; "-5"]%string (-5)).
  - vm_compute. reflexivity.
  - lia.
Defined.







(** X13. The two conversions of [main] are inverse to each other: the
    text [str(z)] that the summary shows for a limit [z] is read back by
    [type=int] as [z], and [-n str(z)] parses to the limit [z], negative
    numbers included. The bound keeps the statement within the 4300
    digits that CPython converts from version 3.11 on. *)
Theorem X13_str_of_limit_parses_back (z : Z) (flag : string) (w : world) :
  Z.abs z < 10 ^ 4300 ->
  flag = "-n"%string \/ flag = "--limit"%string ->
  py_int (py_str z) = Some z /\
  parse_args [flag; py_str z] w = (Ok z, w).
Proof.
  intros _ Hflag. split; [apply py_int_py_str|].
  unfold parse_args. cbn [parse_opts].
  destruct (is_limit_flag flag Hflag) as (Hh & Hl).
  rewrite Hh, Hl, arg_like_py_str, py_int_py_str. reflexivity.
Qed.

(** The theorem of X13 at [z = -42]. *)
Lemma X13_witness_minus_42 :
  py_int (py_str (-42)) = Some (-42) /\
  parse_args ["-n"%string; py_str (-42)] empty_world = (Ok (-42), empty_world).
Proof.
  apply (X13_str_of_limit_parses_back (-42) "-n" empty_world).
  - vm_compute. reflexivity.
  - left. reflexivity.
Defined.

(** X14. [main] has no handler around the search: when the parsed limit is
    beyond the range of doubles, the run ends with status 1 after the
    banner and the start marker were written, and the end marker never
    is. *)
Theorem X14_overflow_leaves_start_marker_open
        (L : Libm) (argv : list string) (limit : Z) :
  parse_args argv empty_world = (Ok limit, empty_world) ->
  2 ^ 1024 - 2 ^ 970 < limit ->
  run_script argv =
  (1, mkworld [mkline "Starting prime calculation..." false;
               mkline "__WORK_START__" true]
              ["Traceback (most recent call last):"%string]).
Proof.
  intros Hp Hl. unfold run_script. rewrite (main_run argv limit empty_world Hp).
  destruct (convertible (py_range 2 limit)) eqn:Hc; [|reflexivity].
  apply convertible_range in Hc. unfold overflow_threshold in Hc. lia.
Qed.

(** The theorem of X14 on the command line [-n 2^1024], in decimal. *)
Lemma X14_witness_limit_2_to_1024 :
  @run_script libm_down ["-n"%string; py_str (2 ^ 1024)] =
  (1, mkworld [mkline "Starting prime calculation..." false;
               mkline "__WORK_START__" true]
              ["Traceback (most recent call last):"%string]).
Proof.
  apply (X14_overflow_leaves_start_marker_open
           libm_down ["-n"%string; py_str (2 ^ 1024)] (2 ^ 1024)).
  - vm_compute. reflexivity.
  - lia.
Defined.

(** X15. When the parsed limit is at most [2^53], the count in the summary
    line is the number of primes below the limit: the run ends with status
    0 and its last line is [Found <count> prime numbers up to <limit>]
    where [count] is the length of the strictly increasing list of all
    primes below [limit]. *)
Theorem X15_summary_counts_the_primes
        (L : Libm) (argv : list string) (limit : Z) :
  parse_args argv empty_world = (Ok limit, empty_world) ->
  limit <= 2 ^ 53 ->
  exists primes : list Z,
    StronglySorted Z.lt primes /\
    (forall p, In p primes <-> Z.prime p /\ p < limit) /\
    run_script argv =
    (0, mkworld [mkline "Starting prime calculation..." false;
                 mkline "__WORK_START__" true;
                 mkline "__WORK_END__" true;
                 mkline ("Found " ++ py_str (Z.of_nat (List.length primes))
                         ++ " prime numbers up to " ++ py_str limit)%string false]
                []).
Proof.
  intros Hp Hl. exists (filter keeps (py_range 2 limit)).
  destruct (filter_keeps_primes limit Hl) as (Hs & Hm).
  split; [assumption|]. split; [assumption|].
  unfold run_script. rewrite (main_run argv limit empty_world Hp).
  rewrite convertible_small; [reflexivity|].
  intros x Hx. apply py_range_In in Hx. lia.
Qed.

(** The theorem of X15 on the command line [--limit 30]. *)
Lemma X15_witness_limit_30 :
  exists primes : list Z,
    StronglySorted Z.lt primes /\
    (forall p, In p primes <-> Z.prime p /\ p < 30) /\
    @run_script libm_down ["--limit"; "30"]%string =
    (0, mkworld [mkline "Starting prime calculation..." false;
                 mkline "__WORK_START__" true;
                 mkline "__WORK_END__" true;
                 mkline ("Found " ++ py_str (Z.of_nat (List.length primes))
                         ++ " prime numbers up to " ++ py_str 30)%string false]
                []).
Proof.
  apply (X15_summary_counts_the_primes libm_down ["--limit"; "30"]%string 30).
  - vm_compute. reflexivity.
  - lia.
Defined.
